(** * go-eth2-wallet: the wallet dispatch layer of [wallet.go]

    A shallow embedding of [wallet.go] (package [wallet]): the option
    resolver ([WithStore], [WithEncryptor], [WithPassphrase], [WithType]),
    the three dispatching entry points ([ImportWallet], [OpenWallet],
    [CreateWallet]), the shared deserialization path ([walletFromBytes]) and
    the enumeration goroutine of [Wallets].

    The collaborators the file imports (the store, [ecodec.Decrypt],
    [json.Unmarshal] and the [nd] / [hd] wallet packages) are not part of
    the file: they are the fields of an environment record [Env], and every
    statement below is quantified over it.  A collaborator is a function
    that returns its Go result pair; a panic can only come from the code of
    [wallet.go] itself. *)

From Stdlib Require Import String Ascii List Bool Arith Lia.
From ExtLib Require Import Structures.Monad.
Import ListNotations.
Import MonadNotation.
Local Open Scope string_scope.
Local Open Scope list_scope.
Local Open Scope nat_scope.
Local Open Scope bool_scope.
Local Open Scope monad_scope.

Set Implicit Arguments.

(** Go's [[]byte]; the nil slice and the empty slice are both [[]]. *)
Definition bytes : Type := list Byte.byte.

(** [uuid.UUID] is [[16]byte]; its zero value is sixteen zero bytes. *)
Definition UUID : Type := list Byte.byte.
Definition zero_UUID : UUID := repeat Byte.x00 16.

(** ** Outcomes and the call log

    A Go function either returns or panics.  A computation carries the log
    of the collaborator calls it made, in program order, together with its
    outcome; a panic keeps the calls made before it. *)
Inductive outcome (A : Type) : Type :=
| Returned (a : A)
| Panicked.
Arguments Panicked {A}.

Definition logged (C A : Type) : Type := (list C * outcome A)%type.

Definition logged_ret {C A : Type} (a : A) : logged C A := ([], Returned a).

Definition logged_bind {C A B : Type} (m : logged C A) (k : A -> logged C B)
  : logged C B :=
  match m with
  | (l1, Returned a) => let (l2, o) := k a in (l1 ++ l2, o)
  | (l1, Panicked) => (l1, Panicked)
  end.

#[export] Instance Monad_logged (C : Type) : Monad (logged C) :=
  {| ret := fun _ a => logged_ret a;
     bind := fun _ _ m k => logged_bind m k |}.

(** [invoke c r]: the call [c] is made and answers [r]. *)
Definition invoke {C A : Type} (c : C) (r : A) : logged C A := ([c], Returned r).

(** A nil pointer dereference. *)
Definition nil_dereference {C A : Type} : logged C A := ([], Panicked).

Definition calls {C A : Type} (m : logged C A) : list C := fst m.
Definition outcome_of {C A : Type} (m : logged C A) : outcome A := snd m.

(** ** Formatting: the [%q] verb of [fmt.Errorf]

    [Sprintf_q q format arg] replaces the first [%q] of [format] by
    [q arg], where [q] is Go's [strconv.Quote]. *)
Fixpoint Sprintf_q (q : string -> string) (format arg : string) : string :=
  match format with
  | EmptyString => EmptyString
  | String c rest =>
      match rest with
      | String d rest' =>
          if (Ascii.eqb c "%" && Ascii.eqb d "q")%bool
          then (q arg ++ rest')%string
          else String c (Sprintf_q q rest arg)
      | EmptyString => String c EmptyString
      end
  end.

Section Wallet.

(** [types.Store], [types.Encryptor] and [types.Wallet] are interfaces of
    package [types]; values of these types are references.  [ExtError]
    are the error values the collaborators produce. *)
Variables Store Encryptor Wallet ExtError : Type.

(** Go's [error]: a collaborator's error, or the value built by
    [fmt.Errorf(format, arg)] with a single [%q] argument. *)
Inductive error : Type :=
| ExternalError (e : ExtError)
| Errorf (format arg : string).

(** The message of an error ([err.Error()]). *)
Definition Error (q : string -> string) (ext : ExtError -> string)
           (e : error) : string :=
  match e with
  | ExternalError x => ext x
  | Errorf format arg => Sprintf_q q format arg
  end.

(** A Go result pair [(types.Wallet, error)]; [None] is [nil]. *)
Definition result : Type := (option Wallet * option error)%type.

(** [walletOptions]. *)
Record walletOptions : Type := {
  store : Store;
  encryptor : Encryptor;
  walletType : string;
  passphrase : bytes
}.

(** [Option]: the only implementation of the interface is [optionFunc],
    a function on [*walletOptions]; the pointer update is the returned
    record. *)
Definition optionFunc : Type := walletOptions -> walletOptions.
Definition Option : Type := optionFunc.

Definition apply (f : optionFunc) (o : walletOptions) : walletOptions := f o.

Definition WithStore (s : Store) : Option :=
  fun o => {| store := s; encryptor := encryptor o;
              walletType := walletType o; passphrase := passphrase o |}.

Definition WithEncryptor (e : Encryptor) : Option :=
  fun o => {| store := store o; encryptor := e;
              walletType := walletType o; passphrase := passphrase o |}.

Definition WithPassphrase (p : bytes) : Option :=
  fun o => {| store := store o; encryptor := encryptor o;
              walletType := walletType o; passphrase := p |}.

Definition WithType (t : string) : Option :=
  fun o => {| store := store o; encryptor := encryptor o;
              walletType := t; passphrase := passphrase o |}.

(** [for _, o := range opts { o.apply(&options) }] *)
Definition apply_all (opts : list Option) (options : walletOptions)
  : walletOptions :=
  fold_left (fun o f => apply f o) opts options.

(** [walletInfo], the envelope; [walletExt] is the type local to
    [ImportWallet], whose field is a pointer. *)
Record walletInfo : Type := {
  info_ID : UUID;
  info_Name : string;
  info_Type : string
}.

Record walletExt : Type := {
  ext_Wallet : option walletInfo
}.

(** [&walletInfo{}] and [&walletExt{}]: the zero values. *)
Definition zero_walletInfo : walletInfo :=
  {| info_ID := zero_UUID; info_Name := ""; info_Type := "" |}.
Definition zero_walletExt : walletExt := {| ext_Wallet := None |}.

(** ** The environment: package variables and collaborators *)
Record Env : Type := {
  (** the package variables [store] and [encryptor] *)
  pkg_store : Store;
  pkg_encryptor : Encryptor;
  (** [types.Store] *)
  RetrieveWallet : Store -> string -> bytes * option error;
  RetrieveWallets : Store -> list bytes;
  (** [ecodec.Decrypt] *)
  Decrypt : bytes -> bytes -> bytes * option error;
  (** [json.Unmarshal] into a [*walletInfo] and into a [*walletExt]:
      given the value behind the pointer, the value it leaves there *)
  Unmarshal_walletInfo : bytes -> walletInfo -> walletInfo * option error;
  Unmarshal_walletExt : bytes -> walletExt -> walletExt * option error;
  (** packages [nd] and [hd] *)
  nd_CreateWallet : string -> Store -> Encryptor -> result;
  hd_CreateWallet : string -> bytes -> Store -> Encryptor -> result;
  nd_Import : bytes -> bytes -> Store -> Encryptor -> result;
  hd_Import : bytes -> bytes -> Store -> Encryptor -> result;
  nd_DeserializeWallet : bytes -> Store -> Encryptor -> result;
  hd_DeserializeWallet : bytes -> Store -> Encryptor -> result
}.

(** The collaborator calls that are logged. *)
Inductive Call : Type :=
| CallRetrieveWallet (s : Store) (name : string)
| CallDecrypt (data key : bytes)
| CallNdCreateWallet (name : string) (s : Store) (e : Encryptor)
| CallHdCreateWallet (name : string) (p : bytes) (s : Store) (e : Encryptor)
| CallNdImport (data p : bytes) (s : Store) (e : Encryptor)
| CallHdImport (data p : bytes) (s : Store) (e : Encryptor)
| CallNdDeserializeWallet (data : bytes) (s : Store) (e : Encryptor)
| CallHdDeserializeWallet (data : bytes) (s : Store) (e : Encryptor).

Definition M : Type -> Type := logged Call.

Variable env : Env.

(** ** [ImportWallet] *)
Definition ImportWallet (encryptedData passphrase : bytes) : M result :=
  r <- invoke (CallDecrypt encryptedData passphrase)
              (Decrypt env encryptedData passphrase) ;;
  let '(data, err) := r in
  match err with
  | Some e => ret (None, Some e)
  | None =>
      let ext := zero_walletExt in
      let '(ext, err) := Unmarshal_walletExt env data ext in
      match err with
      | Some e => ret (None, Some e)
      | None =>
          (* ext.Wallet.Type *)
          t <- match ext_Wallet ext with
               | Some w => ret (info_Type w)
               | None => nil_dereference
               end ;;
          if String.eqb t "nd" || String.eqb t "non-deterministic" then
            invoke (CallNdImport encryptedData passphrase
                                 (pkg_store env) (pkg_encryptor env))
                   (nd_Import env encryptedData passphrase
                              (pkg_store env) (pkg_encryptor env))
          else if String.eqb t "hd" || String.eqb t "hierarchical deterministic" then
            invoke (CallHdImport encryptedData passphrase
                                 (pkg_store env) (pkg_encryptor env))
                   (hd_Import env encryptedData passphrase
                              (pkg_store env) (pkg_encryptor env))
          else
            ret (None, Some (Errorf "unsupported wallet type %q" t))
      end
  end.

(** ** [walletFromBytes] *)
Definition walletFromBytes (data : bytes) : M result :=
  let info := zero_walletInfo in
  let '(info, err) := Unmarshal_walletInfo env data info in
  match err with
  | Some e => ret (None, Some e)
  | None =>
      let t := info_Type info in
      if String.eqb t "nd" || String.eqb t "non-deterministic" then
        invoke (CallNdDeserializeWallet data (pkg_store env) (pkg_encryptor env))
               (nd_DeserializeWallet env data (pkg_store env) (pkg_encryptor env))
      else if String.eqb t "hd" || String.eqb t "hierarchical deterministic" then
        invoke (CallHdDeserializeWallet data (pkg_store env) (pkg_encryptor env))
               (hd_DeserializeWallet env data (pkg_store env) (pkg_encryptor env))
      else
        ret (None, Some (Errorf "unsupported wallet type %q" t))
  end.

(** ** [OpenWallet] *)
Definition OpenWallet_options (opts : list Option) : walletOptions :=
  apply_all opts
    {| store := pkg_store env; encryptor := pkg_encryptor env;
       walletType := ""; passphrase := [] |}.

Definition OpenWallet (name : string) (opts : list Option) : M result :=
  let options := OpenWallet_options opts in
  r <- invoke (CallRetrieveWallet (pkg_store env) name)
              (RetrieveWallet env (pkg_store env) name) ;;
  let '(data, err) := r in
  match err with
  | Some e => ret (None, Some e)
  | None => walletFromBytes data
  end.

(** ** [CreateWallet] *)
Definition CreateWallet_options (opts : list Option) : walletOptions :=
  apply_all opts
    {| store := pkg_store env; encryptor := pkg_encryptor env;
       passphrase := []; walletType := "nd" |}.

Definition CreateWallet (name : string) (opts : list Option) : M result :=
  let options := CreateWallet_options opts in
  let t := walletType options in
  if String.eqb t "nd" || String.eqb t "non-deterministic" then
    invoke (CallNdCreateWallet name (store options) (encryptor options))
           (nd_CreateWallet env name (store options) (encryptor options))
  else if String.eqb t "hd" || String.eqb t "hierarchical deterministic" then
    invoke (CallHdCreateWallet name (passphrase options)
                               (store options) (encryptor options))
           (hd_CreateWallet env name (passphrase options)
                            (store options) (encryptor options))
  else
    ret (None, Some (Errorf "unhandled wallet type %q" t)).

(** ** [Wallets]

    [Wallets] makes a channel of capacity 1024, starts a goroutine and
    returns the channel.  The goroutine and the channel are a transition
    system: [producer] is the position of the goroutine, [buffer] the
    queue of the channel, [received] what the consumer has taken off the
    channel so far. *)
Definition capacity : nat := 1024.

(** The positions of the goroutine: at the head of the range loop with
    [rest] still to come from the store; at [ch <- wallet]; after
    [close(ch)]; after a panic. *)
Inductive producer : Type :=
| Ranging (rest : list bytes)
| Sending (wallet : option Wallet) (rest : list bytes)
| Finished
| Crashed.

Record state : Type := {
  prod : producer;
  buffer : list (option Wallet);
  closed : bool;
  received : list (option Wallet)
}.

(** The state in which [Wallets] returns. *)
Definition Wallets : state :=
  {| prod := Ranging (RetrieveWallets env (pkg_store env));
     buffer := []; closed := false; received := [] |}.

(** One step of the goroutine; [None] when it cannot move (it is blocked
    on a full channel, or it is over). *)
Definition producer_step (s : state) : option state :=
  match prod s with
  | Ranging [] =>
      Some {| prod := Finished; buffer := buffer s; closed := true;
              received := received s |}
  | Ranging (data :: rest) =>
      match outcome_of (walletFromBytes data) with
      | Returned (wallet, None) =>
          Some {| prod := Sending wallet rest; buffer := buffer s;
                  closed := closed s; received := received s |}
      | Returned (_, Some _) =>
          Some {| prod := Ranging rest; buffer := buffer s;
                  closed := closed s; received := received s |}
      | Panicked =>
          Some {| prod := Crashed; buffer := buffer s;
                  closed := closed s; received := received s |}
      end
  | Sending wallet rest =>
      if length (buffer s) <? capacity
      then Some {| prod := Ranging rest; buffer := buffer s ++ [wallet];
                   closed := closed s; received := received s |}
      else None
  | Finished => None
  | Crashed => None
  end.

(** One receive of the consumer; [None] when the channel is empty. *)
Definition consumer_step (s : state) : option state :=
  match buffer s with
  | w :: b =>
      Some {| prod := prod s; buffer := b; closed := closed s;
              received := received s ++ [w] |}
  | [] => None
  end.

Inductive actor : Type := Producer | Consumer.

(** The next actor is scheduled; an actor that cannot move waits. *)
Definition step (a : actor) (s : state) : state :=
  match a with
  | Producer => match producer_step s with Some s' => s' | None => s end
  | Consumer => match consumer_step s with Some s' => s' | None => s end
  end.

Definition run (schedule : list actor) (s : state) : state :=
  fold_left (fun s a => step a s) schedule s.

(** The consumer has stopped reading: only the goroutine is scheduled. *)
Definition producer_run (n : nat) (s : state) : state :=
  run (repeat Producer n) s.

(** The wallets of the payloads that deserialize with a nil error, in the
    order of the payloads. *)
Definition wallets_of (payloads : list bytes) : list (option Wallet) :=
  flat_map (fun data =>
              match outcome_of (walletFromBytes data) with
              | Returned (wallet, None) => [wallet]
              | _ => []
              end) payloads.

(** What the goroutine has still to put on the channel. *)
Definition unsent (p : producer) : list (option Wallet) :=
  match p with
  | Ranging rest => wallets_of rest
  | Sending wallet rest => wallet :: wallets_of rest
  | Finished => []
  | Crashed => []
  end.

Definition finished (p : producer) : bool :=
  match p with Finished => true | _ => false end.

(** The number of wallets in the channel or still to be put on it. *)
Definition backlog (s : state) : nat :=
  length (buffer s) + length (unsent (prod s)).

(** A bound on the number of steps a state can still take. *)
Definition work (s : state) : nat :=
  match prod s with
  | Ranging rest => 3 * length rest + 1
  | Sending _ rest => 3 * length rest + 3
  | Finished => 0
  | Crashed => 0
  end + length (buffer s).

(** What holds of every state the goroutine and the consumer can reach
    from [Wallets], for the payloads [all] of the store. *)
Definition invariant (all : list bytes) (s : state) : Prop :=
  received s ++ buffer s ++ unsent (prod s) = wallets_of all /\
  closed s = finished (prod s) /\
  prod s <> Crashed /\
  length (buffer s) <= capacity.

End Wallet.

Arguments ExternalError {ExtError} e.
Arguments Errorf {ExtError} format arg.
Arguments Ranging {Wallet} rest.
Arguments Finished {Wallet}.
Arguments Crashed {Wallet}.
Arguments CallRetrieveWallet {Store Encryptor} s name.
Arguments CallDecrypt {Store Encryptor} data key.
Arguments CallNdCreateWallet {Store Encryptor} name s e.
Arguments CallHdCreateWallet {Store Encryptor} name p s e.
Arguments CallNdImport {Store Encryptor} data p s e.
Arguments CallHdImport {Store Encryptor} data p s e.
Arguments CallNdDeserializeWallet {Store Encryptor} data s e.
Arguments CallHdDeserializeWallet {Store Encryptor} data s e.

(** ** The variant tag table

    The table of accepted tag spellings as the specification states it
    (the code has no table, it repeats the switch in three functions):
    nd and non-deterministic name the ND variant, hd and
    hierarchical deterministic name the HD variant. *)
Inductive variant : Type := ND | HD.

Definition tag_table : list (string * variant) :=
  [("nd", ND); ("non-deterministic", ND);
   ("hd", HD); ("hierarchical deterministic", HD)].

Fixpoint lookup_tag (table : list (string * variant)) (t : string)
  : option variant :=
  match table with
  | [] => None
  | (spelling, v) :: table' =>
      if String.eqb t spelling then Some v else lookup_tag table' t
  end.

Definition variant_of_tag (t : string) : option variant :=
  lookup_tag tag_table t.

Section Observations.

Variables Store Encryptor Wallet ExtError : Type.

(** The variant a logged call belongs to. *)
Definition variant_of_call (c : Call Store Encryptor) : option variant :=
  match c with
  | CallNdCreateWallet _ _ _ => Some ND
  | CallHdCreateWallet _ _ _ _ => Some HD
  | CallNdImport _ _ _ _ => Some ND
  | CallHdImport _ _ _ _ => Some HD
  | CallNdDeserializeWallet _ _ _ => Some ND
  | CallHdDeserializeWallet _ _ _ => Some HD
  | CallRetrieveWallet _ _ => None
  | CallDecrypt _ _ => None
  end.

(** The variant a computation dispatched to: the variant of the first
    variant call in its log, [None] when it called no variant. *)
Fixpoint first_variant (l : list (Call Store Encryptor)) : option variant :=
  match l with
  | [] => None
  | c :: l' =>
      match variant_of_call c with
      | Some v => Some v
      | None => first_variant l'
      end
  end.

Definition selected {A : Type} (m : M Store Encryptor A) : option variant :=
  first_variant (calls m).

(** The fields of [walletOptions], and the field an option sets. *)
Inductive field : Type := FStore | FEncryptor | FWalletType | FPassphrase.

Inductive setting : Type :=
| SetStore (s : Store)
| SetEncryptor (e : Encryptor)
| SetPassphrase (p : bytes)
| SetType (t : string).

Definition option_of (x : setting) : Option Store Encryptor :=
  match x with
  | SetStore s => WithStore s
  | SetEncryptor e => WithEncryptor e
  | SetPassphrase p => WithPassphrase p
  | SetType t => WithType t
  end.

Definition target (x : setting) : field :=
  match x with
  | SetStore _ => FStore
  | SetEncryptor _ => FEncryptor
  | SetPassphrase _ => FPassphrase
  | SetType _ => FWalletType
  end.

(** [same_field f o o']: the two records agree on field [f]. *)
Definition same_field (f : field) (o o' : walletOptions Store Encryptor)
  : Prop :=
  match f with
  | FStore => store o = store o'
  | FEncryptor => encryptor o = encryptor o'
  | FWalletType => walletType o = walletType o'
  | FPassphrase => passphrase o = passphrase o'
  end.

(** The store and the encryptor a logged call was given. *)
Definition call_store (c : Call Store Encryptor) : option Store :=
  match c with
  | CallRetrieveWallet s _ => Some s
  | CallDecrypt _ _ => None
  | CallNdCreateWallet _ s _ => Some s
  | CallHdCreateWallet _ _ s _ => Some s
  | CallNdImport _ _ s _ => Some s
  | CallHdImport _ _ s _ => Some s
  | CallNdDeserializeWallet _ s _ => Some s
  | CallHdDeserializeWallet _ s _ => Some s
  end.

Definition call_encryptor (c : Call Store Encryptor) : option Encryptor :=
  match c with
  | CallRetrieveWallet _ _ => None
  | CallDecrypt _ _ => None
  | CallNdCreateWallet _ _ e => Some e
  | CallHdCreateWallet _ _ _ e => Some e
  | CallNdImport _ _ _ e => Some e
  | CallHdImport _ _ _ e => Some e
  | CallNdDeserializeWallet _ _ e => Some e
  | CallHdDeserializeWallet _ _ e => Some e
  end.

(** [addressed_to s e c]: the call [c] was given the store [s] and, when it
    takes an encryptor, the encryptor [e]. *)
Definition addressed_to (s : Store) (e : Encryptor)
           (c : Call Store Encryptor) : Prop :=
  call_store c = Some s /\
  match call_encryptor c with
  | Some e' => e' = e
  | None => True
  end.

Variable env : Env Store Encryptor Wallet ExtError.

(** The enumeration as the specification words it, from the answers of the
    collaborators alone: a payload that does not parse as an envelope, or
    whose type is not a registered tag, or for which the [DeserializeWallet]
    of its variant answers with an error, yields nothing; any other payload
    yields the wallet that the [DeserializeWallet] of its variant answers
    for these bytes, the package store and the package encryptor. *)
Definition yield_of (data : bytes) : list (option Wallet) :=
  match Unmarshal_walletInfo env data zero_walletInfo with
  | (_, Some _) => []
  | (info, None) =>
      match variant_of_tag (info_Type info) with
      | None => []
      | Some ND =>
          match nd_DeserializeWallet env data (pkg_store env) (pkg_encryptor env) with
          | (wallet, None) => [wallet]
          | (_, Some _) => []
          end
      | Some HD =>
          match hd_DeserializeWallet env data (pkg_store env) (pkg_encryptor env) with
          | (wallet, None) => [wallet]
          | (_, Some _) => []
          end
      end
  end.

Definition expected_enumeration (payloads : list bytes)
  : list (option Wallet) :=
  flat_map yield_of payloads.

End Observations.

Arguments SetStore {Store Encryptor} s.
Arguments SetEncryptor {Store Encryptor} e.
Arguments SetPassphrase {Store Encryptor} p.
Arguments SetType {Store Encryptor} t.

(** ** A concrete environment

    Two stores, one encryptor, and collaborators that answer as the real
    ones do on a handful of inputs.  The examples and the concrete runs
    below are evaluated in it. *)
Module Sample.

Inductive store_ref : Type := MainStore | BackupStore.
Inductive encryptor_ref : Type := Keystore | Unencrypted.
Inductive ext_error : Type :=
| NotFound | CannotDecrypt | SyntaxError | PassphraseRequired.

(** A wallet remembers the variant that built it, what it was built from
    and the store it was given. *)
Record wallet : Type := {
  kind : variant;
  source : bytes;
  home : store_ref
}.

Definition text (data : bytes) : string := string_of_list_byte data.
Definition data_of (s : string) : bytes := list_byte_of_string s.

(** The double quote character, and a quoted JSON string. *)
Definition dq : string := String (ascii_of_nat 34) EmptyString.
Definition quoted (s : string) : string := (dq ++ s ++ dq)%string.

(** The envelope document with a name and a type, the same document
    without its type member, and the export document around an envelope. *)
Definition envelope (name type : string) : string :=
  ("{" ++ quoted "name" ++ ":" ++ quoted name ++ ","
       ++ quoted "type" ++ ":" ++ quoted type ++ "}")%string.
Definition untyped_envelope (name : string) : string :=
  ("{" ++ quoted "name" ++ ":" ++ quoted name ++ "}")%string.
Definition export (doc : string) : string :=
  ("{" ++ quoted "wallet" ++ ":" ++ doc ++ "}")%string.

Definition known : list (string * string) :=
  [("alice", "nd"); ("bob", "hd"); ("carol", "xx");
   ("dave", "non-deterministic"); ("erin", "hierarchical deterministic")].

(** [json.Unmarshal] on the documents above: members present in the
    document are stored, absent members keep the value they had, and
    anything else is a syntax error. *)
Fixpoint decode_envelope (docs : list (string * string)) (s : string)
         (info : walletInfo) : option walletInfo :=
  match docs with
  | [] => None
  | (name, type) :: docs' =>
      if String.eqb s (envelope name type)
      then Some {| info_ID := info_ID info; info_Name := name;
                   info_Type := type |}
      else if String.eqb s (untyped_envelope name)
      then Some {| info_ID := info_ID info; info_Name := name;
                   info_Type := info_Type info |}
      else decode_envelope docs' s info
  end.

Definition unmarshal_walletInfo (data : bytes) (info : walletInfo)
  : walletInfo * option (error ext_error) :=
  if String.eqb (text data) "{}" then (info, None)
  else match decode_envelope known (text data) info with
       | Some info' => (info', None)
       | None => (info, Some (ExternalError SyntaxError))
       end.

Fixpoint decode_export (docs : list (string * string)) (s : string)
  : option walletInfo :=
  match docs with
  | [] => None
  | (name, type) :: docs' =>
      if String.eqb s (export (envelope name type))
      then Some {| info_ID := zero_UUID; info_Name := name;
                   info_Type := type |}
      else decode_export docs' s
  end.

Definition unmarshal_walletExt (data : bytes) (ext : walletExt)
  : walletExt * option (error ext_error) :=
  if String.eqb (text data) "{}" then (ext, None)
  else match decode_export known (text data) with
       | Some info => ({| ext_Wallet := Some info |}, None)
       | None => (ext, Some (ExternalError SyntaxError))
       end.

(** A toy cipher: the ciphertext is the plaintext, the key is checked. *)
Definition decrypt (data key : bytes) : bytes * option (error ext_error) :=
  if String.eqb (text key) "secret" then (data, None)
  else ([], Some (ExternalError CannotDecrypt)).

(** The main store holds four payloads, one malformed and one of an
    unknown type, and knows the wallet bob by name; the backup store holds
    the wallet alice. *)
Definition retrieveWallet (s : store_ref) (name : string)
  : bytes * option (error ext_error) :=
  match s with
  | MainStore =>
      if String.eqb name "bob" then (data_of (envelope "bob" "hd"), None)
      else ([], Some (ExternalError NotFound))
  | BackupStore =>
      if String.eqb name "alice" then (data_of (envelope "alice" "nd"), None)
      else ([], Some (ExternalError NotFound))
  end.

Definition retrieveWallets (s : store_ref) : list bytes :=
  match s with
  | MainStore =>
      [data_of (envelope "alice" "nd"); data_of "not json";
       data_of (envelope "bob" "hd"); data_of (envelope "carol" "xx")]
  | BackupStore => [data_of (envelope "alice" "nd")]
  end.

Definition built (v : variant) (from : bytes) (s : store_ref)
  : result wallet ext_error :=
  (Some {| kind := v; source := from; home := s |}, None).

Definition env : Env store_ref encryptor_ref wallet ext_error :=
  {| pkg_store := MainStore;
     pkg_encryptor := Keystore;
     RetrieveWallet := retrieveWallet;
     RetrieveWallets := retrieveWallets;
     Decrypt := decrypt;
     Unmarshal_walletInfo := unmarshal_walletInfo;
     Unmarshal_walletExt := unmarshal_walletExt;
     nd_CreateWallet := fun name s _ => built ND (data_of name) s;
     hd_CreateWallet := fun name p s _ =>
       match p with
       | [] => (None, Some (ExternalError PassphraseRequired))
       | _ :: _ => built HD (data_of name) s
       end;
     nd_Import := fun data _ s _ => built ND data s;
     hd_Import := fun data _ s _ => built HD data s;
     nd_DeserializeWallet := fun data s _ => built ND data s;
     hd_DeserializeWallet := fun data s _ => built HD data s |}.

(** The same environment with a main store of [n] wallets. *)
Definition crowded (n : nat) : Env store_ref encryptor_ref wallet ext_error :=
  {| pkg_store := MainStore;
     pkg_encryptor := Keystore;
     RetrieveWallet := retrieveWallet;
     RetrieveWallets := fun _ => repeat (data_of (envelope "alice" "nd")) n;
     Decrypt := decrypt;
     Unmarshal_walletInfo := unmarshal_walletInfo;
     Unmarshal_walletExt := unmarshal_walletExt;
     nd_CreateWallet := nd_CreateWallet env;
     hd_CreateWallet := hd_CreateWallet env;
     nd_Import := nd_Import env;
     hd_Import := hd_Import env;
     nd_DeserializeWallet := nd_DeserializeWallet env;
     hd_DeserializeWallet := hd_DeserializeWallet env |}.

(** [strconv.Quote] on a string of plain printable characters. *)
Definition quote (s : string) : string := quoted s.

Definition message (e : ext_error) : string :=
  match e with
  | NotFound => "wallet not found"
  | CannotDecrypt => "cannot decrypt"
  | SyntaxError => "invalid character"
  | PassphraseRequired => "passphrase required"
  end.

End Sample.

(** * Properties *)

Lemma append_empty_r (s : string) : (s ++ "")%string = s.
Proof. induction s as [|c s IH]; cbn; [reflexivity | now rewrite IH]. Qed.

(** ** The tag switch *)
Section Dispatch.

Lemma tag_ND (t : string) :
  variant_of_tag t = Some ND ->
  String.eqb t "nd" || String.eqb t "non-deterministic" = true.
Proof.
  unfold variant_of_tag, tag_table, lookup_tag.
  destruct (String.eqb t "nd"); [reflexivity|].
  destruct (String.eqb t "non-deterministic"); [reflexivity|].
  destruct (String.eqb t "hd"); [discriminate|].
  destruct (String.eqb t "hierarchical deterministic"); discriminate.
Qed.

Lemma tag_HD (t : string) :
  variant_of_tag t = Some HD ->
  String.eqb t "nd" || String.eqb t "non-deterministic" = false /\
  String.eqb t "hd" || String.eqb t "hierarchical deterministic" = true.
Proof.
  unfold variant_of_tag, tag_table, lookup_tag.
  destruct (String.eqb t "nd"); [discriminate|].
  destruct (String.eqb t "non-deterministic"); [discriminate|].
  destruct (String.eqb t "hd"); [split; reflexivity|].
  destruct (String.eqb t "hierarchical deterministic");
    [split; reflexivity | discriminate].
Qed.

Lemma tag_unregistered (t : string) :
  variant_of_tag t = None ->
  String.eqb t "nd" || String.eqb t "non-deterministic" = false /\
  String.eqb t "hd" || String.eqb t "hierarchical deterministic" = false.
Proof.
  unfold variant_of_tag, tag_table, lookup_tag.
  destruct (String.eqb t "nd"); [discriminate|].
  destruct (String.eqb t "non-deterministic"); [discriminate|].
  destruct (String.eqb t "hd"); [discriminate|].
  destruct (String.eqb t "hierarchical deterministic");
    [discriminate | split; reflexivity].
Qed.

(** The registered spellings are exactly the four of the table. *)
Lemma registered_spellings (t : string) (v : variant) :
  variant_of_tag t = Some v <-> In (t, v) tag_table.
Proof.
  unfold variant_of_tag, tag_table, lookup_tag. simpl. split.
  - destruct (String.eqb_spec t "nd") as [->|]; [intros [= <-]; tauto|].
    destruct (String.eqb_spec t "non-deterministic") as [->|];
      [intros [= <-]; tauto|].
    destruct (String.eqb_spec t "hd") as [->|]; [intros [= <-]; tauto|].
    destruct (String.eqb_spec t "hierarchical deterministic") as [->|];
      [intros [= <-]; tauto | discriminate].
  - intros [H|[H|[H|[H|[]]]]]; injection H as <- <-; reflexivity.
Qed.

End Dispatch.

(** Case analysis on the variant a tag names, rewriting the two tests of
    the switch in the goal. *)
Ltac switch_on t :=
  let H := fresh "Htag" in
  let H1 := fresh "Hnd" in
  let H2 := fresh "Hhd" in
  destruct (variant_of_tag t) as [[|]|] eqn:H;
  [ pose proof (tag_ND t H) as H1; rewrite ?H1
  | destruct (tag_HD t H) as [H1 H2]; rewrite ?H1, ?H2
  | destruct (tag_unregistered t H) as [H1 H2]; rewrite ?H1, ?H2 ].

Section Properties.

Variables Store Encryptor Wallet ExtError : Type.
Variable env : Env Store Encryptor Wallet ExtError.

(** *** [walletFromBytes] *)

Lemma walletFromBytes_unmarshal_error data info e :
  Unmarshal_walletInfo env data zero_walletInfo = (info, Some e) ->
  walletFromBytes env data = ([], Returned (None, Some e)).
Proof. intros H. unfold walletFromBytes. rewrite H. reflexivity. Qed.

Lemma walletFromBytes_ND data info :
  Unmarshal_walletInfo env data zero_walletInfo = (info, None) ->
  variant_of_tag (info_Type info) = Some ND ->
  walletFromBytes env data =
  ([CallNdDeserializeWallet data (pkg_store env) (pkg_encryptor env)],
   Returned (nd_DeserializeWallet env data (pkg_store env) (pkg_encryptor env))).
Proof.
  intros H Ht. unfold walletFromBytes. rewrite H.
  rewrite (tag_ND _ Ht). reflexivity.
Qed.

Lemma walletFromBytes_HD data info :
  Unmarshal_walletInfo env data zero_walletInfo = (info, None) ->
  variant_of_tag (info_Type info) = Some HD ->
  walletFromBytes env data =
  ([CallHdDeserializeWallet data (pkg_store env) (pkg_encryptor env)],
   Returned (hd_DeserializeWallet env data (pkg_store env) (pkg_encryptor env))).
Proof.
  intros H Ht. unfold walletFromBytes. rewrite H.
  destruct (tag_HD _ Ht) as [-> ->]. reflexivity.
Qed.

Lemma walletFromBytes_unregistered data info :
  Unmarshal_walletInfo env data zero_walletInfo = (info, None) ->
  variant_of_tag (info_Type info) = None ->
  walletFromBytes env data =
  ([], Returned (None, Some (Errorf "unsupported wallet type %q"
                                    (info_Type info)))).
Proof.
  intros H Ht. unfold walletFromBytes. rewrite H.
  destruct (tag_unregistered _ Ht) as [-> ->]. reflexivity.
Qed.

(** [walletFromBytes] returns, whatever the bytes. *)
Lemma walletFromBytes_returns data :
  exists r, outcome_of (walletFromBytes env data) = Returned r.
Proof.
  destruct (Unmarshal_walletInfo env data zero_walletInfo) as [info [e|]] eqn:H.
  - rewrite (walletFromBytes_unmarshal_error _ H). eexists; reflexivity.
  - destruct (variant_of_tag (info_Type info)) as [[|]|] eqn:Ht.
    + rewrite (walletFromBytes_ND _ H Ht). eexists; reflexivity.
    + rewrite (walletFromBytes_HD _ H Ht). eexists; reflexivity.
    + rewrite (walletFromBytes_unregistered _ H Ht). eexists; reflexivity.
Qed.

(** *** [OpenWallet] *)

(** The options of [OpenWallet] take no part in what it does. *)
Lemma OpenWallet_ignores_options name opts :
  OpenWallet env name opts = OpenWallet env name [].
Proof. reflexivity. Qed.

Lemma OpenWallet_retrieves_from_package_store name opts :
  exists l, calls (OpenWallet env name opts)
            = CallRetrieveWallet (pkg_store env) name :: l.
Proof.
  unfold OpenWallet. cbn.
  destruct (RetrieveWallet env (pkg_store env) name) as [data [e|]]; cbn.
  - eexists; reflexivity.
  - destruct (walletFromBytes env data) as [l o]. eexists; reflexivity.
Qed.

(** *** [ImportWallet] *)

Lemma ImportWallet_decrypt_error blob pass plain e :
  Decrypt env blob pass = (plain, Some e) ->
  ImportWallet env blob pass = ([CallDecrypt blob pass], Returned (None, Some e)).
Proof. intros H. unfold ImportWallet. cbn. rewrite H. reflexivity. Qed.

Lemma ImportWallet_unmarshal_error blob pass plain ext e :
  Decrypt env blob pass = (plain, None) ->
  Unmarshal_walletExt env plain zero_walletExt = (ext, Some e) ->
  ImportWallet env blob pass = ([CallDecrypt blob pass], Returned (None, Some e)).
Proof. intros H H'. unfold ImportWallet. cbn. rewrite H, H'. reflexivity. Qed.

(** A plaintext that [json.Unmarshal] accepts and that leaves the [Wallet]
    pointer nil makes [ext.Wallet.Type] panic. *)
Lemma ImportWallet_nil_Wallet blob pass plain ext :
  Decrypt env blob pass = (plain, None) ->
  Unmarshal_walletExt env plain zero_walletExt = (ext, None) ->
  ext_Wallet ext = None ->
  ImportWallet env blob pass = ([CallDecrypt blob pass], Panicked).
Proof.
  intros H H' Hnil. unfold ImportWallet. cbn. rewrite H, H'. cbn.
  rewrite Hnil. reflexivity.
Qed.

Lemma ImportWallet_switch blob pass plain ext w :
  Decrypt env blob pass = (plain, None) ->
  Unmarshal_walletExt env plain zero_walletExt = (ext, None) ->
  ext_Wallet ext = Some w ->
  ImportWallet env blob pass =
  if String.eqb (info_Type w) "nd" || String.eqb (info_Type w) "non-deterministic"
  then ([CallDecrypt blob pass;
         CallNdImport blob pass (pkg_store env) (pkg_encryptor env)],
        Returned (nd_Import env blob pass (pkg_store env) (pkg_encryptor env)))
  else if String.eqb (info_Type w) "hd"
          || String.eqb (info_Type w) "hierarchical deterministic"
  then ([CallDecrypt blob pass;
         CallHdImport blob pass (pkg_store env) (pkg_encryptor env)],
        Returned (hd_Import env blob pass (pkg_store env) (pkg_encryptor env)))
  else ([CallDecrypt blob pass],
        Returned (None, Some (Errorf "unsupported wallet type %q" (info_Type w)))).
Proof.
  intros H H' Hw. unfold ImportWallet. cbn. rewrite H, H'. cbn. rewrite Hw. cbn.
  destruct (String.eqb (info_Type w) "nd" || _); [reflexivity|].
  destruct (String.eqb (info_Type w) "hd" || _); reflexivity.
Qed.

(** C6: when decryption and the parse of the envelope succeed and the type
    of the envelope is a registered tag, [ImportWallet] calls the [Import]
    of the variant the tag names, with the encrypted data and the
    passphrase it was given and with the package store and encryptor, and
    returns what that call answers; it makes no other call after
    [Decrypt]. *)
Theorem ImportWallet_forwards_to_variant blob pass plain ext w :
  Decrypt env blob pass = (plain, None) ->
  Unmarshal_walletExt env plain zero_walletExt = (ext, None) ->
  ext_Wallet ext = Some w ->
  (variant_of_tag (info_Type w) = Some ND ->
   ImportWallet env blob pass =
   ([CallDecrypt blob pass;
     CallNdImport blob pass (pkg_store env) (pkg_encryptor env)],
    Returned (nd_Import env blob pass (pkg_store env) (pkg_encryptor env))))
  /\
  (variant_of_tag (info_Type w) = Some HD ->
   ImportWallet env blob pass =
   ([CallDecrypt blob pass;
     CallHdImport blob pass (pkg_store env) (pkg_encryptor env)],
    Returned (hd_Import env blob pass (pkg_store env) (pkg_encryptor env)))).
Proof.
  intros H H' Hw. rewrite (ImportWallet_switch _ _ H H' Hw). split; intros Ht.
  - rewrite (tag_ND _ Ht). reflexivity.
  - destruct (tag_HD _ Ht) as [-> ->]. reflexivity.
Qed.

(** *** [CreateWallet] *)

Lemma CreateWallet_switch name opts :
  CreateWallet env name opts =
  let o := CreateWallet_options env opts in
  if String.eqb (walletType o) "nd" || String.eqb (walletType o) "non-deterministic"
  then ([CallNdCreateWallet name (store o) (encryptor o)],
        Returned (nd_CreateWallet env name (store o) (encryptor o)))
  else if String.eqb (walletType o) "hd"
          || String.eqb (walletType o) "hierarchical deterministic"
  then ([CallHdCreateWallet name (passphrase o) (store o) (encryptor o)],
        Returned (hd_CreateWallet env name (passphrase o) (store o) (encryptor o)))
  else ([], Returned (None, Some (Errorf "unhandled wallet type %q" (walletType o)))).
Proof.
  unfold CreateWallet. cbn.
  destruct (String.eqb _ "nd" || _); [reflexivity|].
  destruct (String.eqb _ "hd" || _); reflexivity.
Qed.


(** *** The three switches *)

(** C3: for every tag, [CreateWallet] (on the effective type),
    [ImportWallet] (on the type of the decrypted envelope) and
    [walletFromBytes] (on the type of the envelope) dispatch to the variant
    the tag table gives for it, and to no variant when the table has none;
    nd and non-deterministic are ND, hd and hierarchical deterministic are
    HD. *)
Theorem switches_agree t name opts blob pass plain ext w data info :
  walletType (CreateWallet_options env opts) = t ->
  Decrypt env blob pass = (plain, None) ->
  Unmarshal_walletExt env plain zero_walletExt = (ext, None) ->
  ext_Wallet ext = Some w ->
  info_Type w = t ->
  Unmarshal_walletInfo env data zero_walletInfo = (info, None) ->
  info_Type info = t ->
  selected (CreateWallet env name opts) = variant_of_tag t /\
  selected (ImportWallet env blob pass) = variant_of_tag t /\
  selected (walletFromBytes env data) = variant_of_tag t /\
  variant_of_tag "nd" = Some ND /\
  variant_of_tag "non-deterministic" = Some ND /\
  variant_of_tag "hd" = Some HD /\
  variant_of_tag "hierarchical deterministic" = Some HD.
Proof.
  intros Hc Hd Hu Hw Ht Hi Hit.
  rewrite CreateWallet_switch, (ImportWallet_switch _ _ Hd Hu Hw). cbv zeta.
  unfold walletFromBytes. rewrite Hi, Hc, Ht, Hit.
  repeat split; try reflexivity; switch_on t; reflexivity.
Qed.

(** C4: when the tag is none of the registered spellings, [CreateWallet],
    [ImportWallet] and [walletFromBytes] return a nil wallet and the error
    of [fmt.Errorf] whose [%q] argument is the tag, and they call no
    variant; the message of that error is the text of the format followed
    by the quoted tag. *)
Theorem unregistered_tag_is_an_error t name opts blob pass plain ext w data info :
  variant_of_tag t = None ->
  walletType (CreateWallet_options env opts) = t ->
  Decrypt env blob pass = (plain, None) ->
  Unmarshal_walletExt env plain zero_walletExt = (ext, None) ->
  ext_Wallet ext = Some w ->
  info_Type w = t ->
  Unmarshal_walletInfo env data zero_walletInfo = (info, None) ->
  info_Type info = t ->
  CreateWallet env name opts
  = ([], Returned (None, Some (Errorf "unhandled wallet type %q" t))) /\
  ImportWallet env blob pass
  = ([CallDecrypt blob pass],
     Returned (None, Some (Errorf "unsupported wallet type %q" t))) /\
  walletFromBytes env data
  = ([], Returned (None, Some (Errorf "unsupported wallet type %q" t))) /\
  (forall q (ext : ExtError -> string),
      Error q ext (Errorf "unhandled wallet type %q" t)
      = ("unhandled wallet type " ++ q t)%string /\
      Error q ext (Errorf "unsupported wallet type %q" t)
      = ("unsupported wallet type " ++ q t)%string).
Proof.
  intros Hnone Hc Hd Hu Hw Ht Hi Hit.
  destruct (tag_unregistered _ Hnone) as [Hnd Hhd].
  rewrite CreateWallet_switch, (ImportWallet_switch _ _ Hd Hu Hw). cbv zeta.
  rewrite Hc, Ht, Hnd, Hhd. repeat split.
  - subst t. rewrite <- Hit in Hnone |- *.
    rewrite (walletFromBytes_unregistered _ Hi Hnone). reflexivity.
  - cbn. rewrite append_empty_r. reflexivity.
  - cbn. rewrite append_empty_r. reflexivity.
Qed.

(** *** Options *)

Lemma same_field_trans f (o1 o2 o3 : walletOptions Store Encryptor) :
  same_field f o1 o2 -> same_field f o2 o3 -> same_field f o1 o3.
Proof. destruct f; cbn; congruence. Qed.

Lemma apply_all_cons (f : Option Store Encryptor) opts o :
  apply_all (f :: opts) o = apply_all opts (apply f o).
Proof. reflexivity. Qed.

Lemma apply_all_app (opts1 opts2 : list (Option Store Encryptor)) o :
  apply_all (opts1 ++ opts2) o = apply_all opts2 (apply_all opts1 o).
Proof. unfold apply_all. apply fold_left_app. Qed.

Lemma option_sets_one_field (x : setting Store Encryptor) o f :
  f <> target x -> same_field f (apply (option_of x) o) o.
Proof. destruct x, f; cbn; congruence. Qed.

Lemma option_value (x : setting Store Encryptor) o o' :
  same_field (target x) (apply (option_of x) o) (apply (option_of x) o').
Proof. destruct x; reflexivity. Qed.

Lemma untargeted_field_kept (xs : list (setting Store Encryptor)) f :
  forall o,
    (forall y, In y xs -> target y <> f) ->
    same_field f (apply_all (map (@option_of _ _) xs) o) o.
Proof.
  induction xs as [|x xs IH]; intros o Hxs; cbn [map].
  - destruct f; reflexivity.
  - rewrite apply_all_cons.
    apply same_field_trans with (o2 := apply (option_of x) o).
    + apply IH. intros y Hy. apply Hxs. now right.
    + apply option_sets_one_field. intros E. apply (Hxs x); [now left | easy].
Qed.

(** C8: an option leaves every field but its own as it was and gives its
    own field a value that does not depend on the record; after a sequence
    of options, a field that no option targets has the value of the base,
    and a field has the value given by the last option that targets it. *)
Theorem options_last_write_wins (base : walletOptions Store Encryptor) :
  (forall (x : setting Store Encryptor) o f,
      f <> target x -> same_field f (apply (option_of x) o) o) /\
  (forall (x : setting Store Encryptor) o o',
      same_field (target x) (apply (option_of x) o) (apply (option_of x) o')) /\
  (forall (xs : list (setting Store Encryptor)) f,
      (forall y, In y xs -> target y <> f) ->
      same_field f (apply_all (map (@option_of _ _) xs) base) base) /\
  (forall (pre post : list (setting Store Encryptor)) x,
      (forall y, In y post -> target y <> target x) ->
      same_field (target x)
                 (apply_all (map (@option_of _ _) (pre ++ x :: post)) base)
                 (apply (option_of x) base)).
Proof.
  split; [|split; [|split]].
  - intros x o f. apply option_sets_one_field.
  - intros x o o'. apply option_value.
  - intros xs f. apply untargeted_field_kept.
  - intros pre post x Hpost.
    rewrite map_app, apply_all_app. cbn [map]. rewrite apply_all_cons.
    eapply same_field_trans.
    + apply untargeted_field_kept. exact Hpost.
    + apply option_value.
Qed.

(** *** [Wallets] *)

Lemma capacity_pos : 0 < capacity.
Proof. unfold capacity. apply Nat.lt_0_succ. Qed.

Lemma wallets_of_cons data rest :
  wallets_of env (data :: rest) =
  match outcome_of (walletFromBytes env data) with
  | Returned (wallet, None) => [wallet]
  | _ => []
  end ++ wallets_of env rest.
Proof. reflexivity. Qed.

Lemma run_cons a schedule (s : state Wallet) :
  run env (a :: schedule) s = run env schedule (step env a s).
Proof. reflexivity. Qed.

Lemma run_app schedule1 schedule2 (s : state Wallet) :
  run env (schedule1 ++ schedule2) s = run env schedule2 (run env schedule1 s).
Proof. unfold run. apply fold_left_app. Qed.

Lemma producer_run_S n (s : state Wallet) :
  producer_run env (S n) s = producer_run env n (step env Producer s).
Proof. reflexivity. Qed.

Lemma invariant_Wallets :
  invariant env (RetrieveWallets env (pkg_store env)) (Wallets env).
Proof.
  unfold invariant, Wallets. cbn. repeat split; [discriminate | apply Nat.le_0_l].
Qed.

(** The cases of a step of the goroutine. *)
Lemma producer_step_cases s s' :
  producer_step env s = Some s' ->
  (prod s = Ranging [] /\
   s' = {| prod := Finished; buffer := buffer s; closed := true;
           received := received s |}) \/
  (exists data rest wallet,
      prod s = Ranging (data :: rest) /\
      outcome_of (walletFromBytes env data) = Returned (wallet, None) /\
      s' = {| prod := Sending wallet rest; buffer := buffer s;
              closed := closed s; received := received s |}) \/
  (exists data rest wallet e,
      prod s = Ranging (data :: rest) /\
      outcome_of (walletFromBytes env data) = Returned (wallet, Some e) /\
      s' = {| prod := Ranging rest; buffer := buffer s;
              closed := closed s; received := received s |}) \/
  (exists wallet rest,
      prod s = Sending wallet rest /\
      length (buffer s) < capacity /\
      s' = {| prod := Ranging rest; buffer := buffer s ++ [wallet];
              closed := closed s; received := received s |}).
Proof.
  unfold producer_step. destruct (prod s) as [[|data rest]|wallet rest| |] eqn:Hp.
  - intros [= <-]. left. split; reflexivity.
  - destruct (walletFromBytes_returns data) as [[wallet [e|]] Hr]; rewrite Hr;
      intros [= <-]; right.
    + right. left. exists data, rest, wallet, e. repeat split. exact Hr.
    + left. exists data, rest, wallet. repeat split. exact Hr.
  - destruct (Nat.ltb_spec (length (buffer s)) capacity) as [Hlt|Hge];
      [|discriminate].
    intros [= <-]. right. right. right. exists wallet, rest. repeat split.
    exact Hlt.
  - discriminate.
  - discriminate.
Qed.

Lemma invariant_producer_step all s s' :
  invariant env all s -> producer_step env s = Some s' -> invariant env all s'.
Proof.
  intros (Hseq & Hcl & Hcr & Hcap) Hstep. unfold invariant.
  destruct (producer_step_cases _ Hstep)
    as [[Hp ->] | [(data & rest & wallet & Hp & Hr & ->)
       | [(data & rest & wallet & e & Hp & Hr & ->)
       | (wallet & rest & Hp & Hlt & ->)]]];
    cbn [prod buffer closed received finished unsent];
    rewrite Hp in Hseq; cbn [unsent] in Hseq;
    try rewrite wallets_of_cons, Hr in Hseq.
  - repeat split; [exact Hseq | discriminate | exact Hcap].
  - repeat split; [exact Hseq | | discriminate | exact Hcap].
    rewrite Hcl, Hp. reflexivity.
  - repeat split; [exact Hseq | | discriminate | exact Hcap].
    rewrite Hcl, Hp. reflexivity.
  - repeat split.
    + rewrite <- Hseq, <- !app_assoc. reflexivity.
    + rewrite Hcl, Hp. reflexivity.
    + discriminate.
    + rewrite length_app. cbn. lia.
Qed.

Lemma consumer_step_cases (s s' : state Wallet) :
  consumer_step s = Some s' ->
  exists w b, buffer s = w :: b /\
              s' = {| prod := prod s; buffer := b; closed := closed s;
                      received := received s ++ [w] |}.
Proof.
  unfold consumer_step. destruct (buffer s) as [|w b]; [discriminate|].
  intros [= <-]. exists w, b. split; reflexivity.
Qed.

Lemma invariant_consumer_step all s s' :
  invariant env all s -> consumer_step s = Some s' -> invariant env all s'.
Proof.
  intros (Hseq & Hcl & Hcr & Hcap) Hstep. unfold invariant.
  destruct (consumer_step_cases _ Hstep) as (w & b & Hb & ->).
  cbn [prod buffer closed received]. rewrite Hb in Hseq, Hcap.
  repeat split; [| exact Hcl | exact Hcr | cbn in Hcap; lia].
  rewrite <- Hseq, <- app_assoc. reflexivity.
Qed.

Lemma invariant_step all a s :
  invariant env all s -> invariant env all (step env a s).
Proof.
  intros H. destruct a; cbn.
  - destruct (producer_step env s) eqn:E; [|exact H].
    exact (invariant_producer_step H E).
  - destruct (consumer_step s) eqn:E; [|exact H].
    exact (invariant_consumer_step H E).
Qed.

Lemma invariant_run all schedule :
  forall s, invariant env all s -> invariant env all (run env schedule s).
Proof.
  induction schedule as [|a schedule IH]; intros s H; [exact H|].
  rewrite run_cons. apply IH, invariant_step, H.
Qed.

Lemma producer_step_work s s' :
  producer_step env s = Some s' -> work s' < work s.
Proof.
  intros Hstep. unfold work.
  destruct (producer_step_cases _ Hstep)
    as [[Hp ->] | [(data & rest & wallet & Hp & Hr & ->)
       | [(data & rest & wallet & e & Hp & Hr & ->)
       | (wallet & rest & Hp & Hlt & ->)]]];
    rewrite Hp; cbn [prod buffer length]; try rewrite length_app;
    cbn [length]; lia.
Qed.

Lemma consumer_step_work (s s' : state Wallet) :
  consumer_step s = Some s' -> work s' < work s.
Proof.
  intros Hstep. unfold work.
  destruct (consumer_step_cases _ Hstep) as (w & b & Hb & ->).
  rewrite Hb. cbn [prod buffer length]. lia.
Qed.

(** A state in which neither the goroutine nor the consumer can move is
    the end of the enumeration. *)
Lemma stuck_is_exhausted all s :
  invariant env all s ->
  producer_step env s = None ->
  consumer_step s = None ->
  closed s = true /\ buffer s = [] /\ received s = wallets_of env all.
Proof.
  intros (Hseq & Hcl & Hcr & Hcap) Hp Hc.
  assert (Hb : buffer s = []).
  { unfold consumer_step in Hc. destruct (buffer s); [reflexivity|discriminate]. }
  unfold producer_step in Hp. rewrite Hb in Hp, Hseq.
  destruct (prod s) as [[|data rest]|wallet rest| |] eqn:Eprod.
  - discriminate.
  - destruct (outcome_of (walletFromBytes env data)) as [[? [?|]]|]; discriminate.
  - pose proof capacity_pos as Hpos. apply Nat.ltb_lt in Hpos.
    cbn [length] in Hp. rewrite Hpos in Hp. discriminate.
  - cbn in Hseq. rewrite app_nil_r in Hseq. repeat split; assumption.
  - contradiction.
Qed.

(** With a consumer that keeps reading, the enumeration comes to its end. *)
Lemma enumeration_completes all :
  forall n s,
    invariant env all s -> work s <= n ->
    exists schedule,
      closed (run env schedule s) = true /\
      buffer (run env schedule s) = [] /\
      received (run env schedule s) = wallets_of env all.
Proof.
  induction n as [|n IH]; intros s Hinv Hwork.
  - destruct (producer_step env s) as [s'|] eqn:Hp.
    { pose proof (producer_step_work _ Hp). lia. }
    destruct (consumer_step s) as [s'|] eqn:Hc.
    { pose proof (consumer_step_work _ Hc). lia. }
    exists []. exact (stuck_is_exhausted Hinv Hp Hc).
  - destruct (producer_step env s) as [s'|] eqn:Hp.
    { pose proof (producer_step_work _ Hp) as Hlt.
      destruct (IH s' (invariant_producer_step Hinv Hp)) as [schedule Hs]; [lia|].
      exists (Producer :: schedule). rewrite run_cons.
      cbn [step]. rewrite Hp. exact Hs. }
    destruct (consumer_step s) as [s'|] eqn:Hc.
    { pose proof (consumer_step_work _ Hc) as Hlt.
      destruct (IH s' (invariant_consumer_step Hinv Hc)) as [schedule Hs]; [lia|].
      exists (Consumer :: schedule). rewrite run_cons.
      cbn [step]. rewrite Hc. exact Hs. }
    exists []. exact (stuck_is_exhausted Hinv Hp Hc).
Qed.

(** What the goroutine sends for a payload is what the specification
    expects of it. *)
Lemma walletFromBytes_yield data :
  match outcome_of (walletFromBytes env data) with
  | Returned (wallet, None) => [wallet]
  | _ => []
  end = yield_of env data.
Proof.
  unfold yield_of.
  destruct (Unmarshal_walletInfo env data zero_walletInfo) as [info [e|]] eqn:H.
  - rewrite (walletFromBytes_unmarshal_error _ H). reflexivity.
  - destruct (variant_of_tag (info_Type info)) as [[|]|] eqn:Ht.
    + rewrite (walletFromBytes_ND _ H Ht). cbn.
      destruct (nd_DeserializeWallet env data (pkg_store env) (pkg_encryptor env))
        as [wallet [e|]]; reflexivity.
    + rewrite (walletFromBytes_HD _ H Ht). cbn.
      destruct (hd_DeserializeWallet env data (pkg_store env) (pkg_encryptor env))
        as [wallet [e|]]; reflexivity.
    + rewrite (walletFromBytes_unregistered _ H Ht). reflexivity.
Qed.

Lemma wallets_of_expected payloads :
  wallets_of env payloads = expected_enumeration env payloads.
Proof.
  unfold wallets_of, expected_enumeration. apply flat_map_ext.
  intros data. apply walletFromBytes_yield.
Qed.

(** C2: the enumeration delivers [expected_enumeration] of the payloads of
    the store: for each payload in the order of the store, nothing when it
    does not parse, when its type is not a registered tag or when its
    variant answers with an error, and else the wallet its variant answers.
    At every point of every interleaving of the goroutine and the consumer,
    what the consumer has received followed by what is in the channel is a
    prefix of that list; the channel is closed exactly when the goroutine is
    over; a consumer that finds the channel closed and empty has received
    exactly that list, and from every point a schedule leads there.  The
    channel carries wallets only: no error reaches the consumer. *)
Theorem Wallets_yields_deserialized_in_order schedule :
  let payloads := RetrieveWallets env (pkg_store env) in
  let s := run env schedule (Wallets env) in
  (exists pending,
      received s ++ buffer s ++ pending = expected_enumeration env payloads) /\
  closed s = finished (prod s) /\
  (closed s = true -> buffer s = [] ->
   received s = expected_enumeration env payloads) /\
  (exists rest,
      closed (run env rest s) = true /\
      buffer (run env rest s) = [] /\
      received (run env rest s) = expected_enumeration env payloads).
Proof.
  intros payloads s.
  pose proof (invariant_run schedule invariant_Wallets) as Hinv.
  fold payloads in Hinv. fold s in Hinv.
  destruct Hinv as (Hseq & Hcl & Hcr & Hcap).
  rewrite <- (wallets_of_expected payloads).
  split; [|split; [|split]].
  - exists (unsent env (prod s)). exact Hseq.
  - exact Hcl.
  - intros Hclosed Hb. rewrite Hcl in Hclosed.
    destruct (prod s); try discriminate.
    rewrite Hb in Hseq. cbn in Hseq. rewrite app_nil_r in Hseq. exact Hseq.
  - apply (@enumeration_completes payloads (work s) s); [|apply Nat.le_refl].
    repeat split; assumption.
Qed.

(** *** An abandoned channel *)

Lemma producer_step_backlog s s' :
  producer_step env s = Some s' -> backlog env s' = backlog env s.
Proof.
  intros Hstep. unfold backlog.
  destruct (producer_step_cases _ Hstep)
    as [[Hp ->] | [(data & rest & wallet & Hp & Hr & ->)
       | [(data & rest & wallet & e & Hp & Hr & ->)
       | (wallet & rest & Hp & Hlt & ->)]]];
    rewrite Hp; cbn [prod buffer unsent];
    try rewrite wallets_of_cons, Hr; try rewrite length_app;
    cbn [length app]; try reflexivity; lia.
Qed.

(** A backlog that fits in the channel lets the goroutine finish alone. *)
Lemma producer_run_finishes all :
  forall n s,
    invariant env all s -> backlog env s <= capacity -> work s <= n ->
    exists k, finished (prod (producer_run env k s)) = true.
Proof.
  induction n as [|n IH]; intros s Hinv Hfit Hwork;
    destruct (producer_step env s) as [s'|] eqn:Hp.
  - pose proof (producer_step_work _ Hp). lia.
  - exists 0. cbn. unfold producer_step in Hp.
    destruct Hinv as (_ & _ & Hcr & _). unfold backlog in Hfit.
    destruct (prod s) as [[|data rest]|wallet rest| |].
    + discriminate.
    + destruct (outcome_of (walletFromBytes env data)) as [[? [?|]]|]; discriminate.
    + cbn [unsent length] in Hfit.
      destruct (Nat.ltb_spec (length (buffer s)) capacity); [discriminate|lia].
    + reflexivity.
    + contradiction.
  - pose proof (producer_step_work _ Hp) as Hlt.
    destruct (IH s' (invariant_producer_step Hinv Hp)) as [k Hk].
    + rewrite (producer_step_backlog _ Hp). exact Hfit.
    + lia.
    + exists (S k). rewrite producer_run_S. cbn [step]. rewrite Hp. exact Hk.
  - exists 0. cbn. unfold producer_step in Hp.
    destruct Hinv as (_ & _ & Hcr & _). unfold backlog in Hfit.
    destruct (prod s) as [[|data rest]|wallet rest| |].
    + discriminate.
    + destruct (outcome_of (walletFromBytes env data)) as [[? [?|]]|]; discriminate.
    + cbn [unsent length] in Hfit.
      destruct (Nat.ltb_spec (length (buffer s)) capacity); [discriminate|lia].
    + reflexivity.
    + contradiction.
Qed.

(** A goroutine that finishes alone had a backlog that fits in the
    channel: with a larger one it stays at [ch <- wallet] for ever. *)
Lemma producer_run_finished_fits all :
  forall k s,
    invariant env all s ->
    finished (prod (producer_run env k s)) = true ->
    backlog env s <= capacity.
Proof.
  induction k as [|k IH]; intros s Hinv Hfin.
  - cbn in Hfin. destruct Hinv as (_ & _ & _ & Hcap). unfold backlog.
    destruct (prod s); try discriminate. cbn. lia.
  - rewrite producer_run_S in Hfin. cbn [step] in Hfin.
    destruct (producer_step env s) as [s'|] eqn:Hp.
    + rewrite <- (producer_step_backlog _ Hp).
      apply IH; [exact (invariant_producer_step Hinv Hp) | exact Hfin].
    + apply IH; assumption.
Qed.

(** C9, as the code has it: once the consumer has stopped reading, the
    goroutine comes to its end exactly when the wallets in the channel and
    the wallets it has still to send are together at most 1024, the
    capacity of the channel. *)
Theorem abandoned_producer_finishes_iff_backlog_fits schedule :
  let s := run env schedule (Wallets env) in
  (exists k, finished (prod (producer_run env k s)) = true)
  <-> length (buffer s) + length (unsent env (prod s)) <= 1024.
Proof.
  intros s.
  pose proof (invariant_run schedule invariant_Wallets) as Hinv. fold s in Hinv.
  change (length (buffer s) + length (unsent env (prod s)))
    with (backlog env s).
  change 1024 with capacity. split.
  - intros [k Hk]. exact (producer_run_finished_fits _ Hinv Hk).
  - intros Hfit. exact (producer_run_finishes Hinv Hfit (Nat.le_refl _)).
Qed.

(** *** No panic on the deserialization path *)

(** C10: [walletFromBytes] returns whatever the bytes: the error of
    [json.Unmarshal] when there is one, the unsupported-type error when the
    type is not a registered tag (the empty type of an envelope without a
    type member is not one), and else what the variant answers; so
    [OpenWallet] returns too, and the goroutine of [Wallets] never
    crashes. *)
Theorem deserialization_never_panics data name opts schedule :
  (exists r,
      outcome_of (walletFromBytes env data) = Returned r /\
      ((exists info e,
           Unmarshal_walletInfo env data zero_walletInfo = (info, Some e) /\
           r = (None, Some e)) \/
       (exists info,
           Unmarshal_walletInfo env data zero_walletInfo = (info, None) /\
           variant_of_tag (info_Type info) = None /\
           r = (None, Some (Errorf "unsupported wallet type %q"
                                   (info_Type info)))) \/
       (exists info,
           Unmarshal_walletInfo env data zero_walletInfo = (info, None) /\
           variant_of_tag (info_Type info) = Some ND /\
           r = nd_DeserializeWallet env data (pkg_store env) (pkg_encryptor env)) \/
       (exists info,
           Unmarshal_walletInfo env data zero_walletInfo = (info, None) /\
           variant_of_tag (info_Type info) = Some HD /\
           r = hd_DeserializeWallet env data (pkg_store env) (pkg_encryptor env))))
  /\ variant_of_tag (info_Type zero_walletInfo) = None
  /\ (exists r, outcome_of (OpenWallet env name opts) = Returned r)
  /\ prod (run env schedule (Wallets env)) <> Crashed.
Proof.
  split; [|split; [|split]].
  - destruct (Unmarshal_walletInfo env data zero_walletInfo) as [info [e|]] eqn:H.
    + rewrite (walletFromBytes_unmarshal_error _ H). eexists; split; [reflexivity|].
      left. exists info, e. split; reflexivity.
    + destruct (variant_of_tag (info_Type info)) as [[|]|] eqn:Ht.
      * rewrite (walletFromBytes_ND _ H Ht). eexists; split; [reflexivity|].
        right. right. left. exists info. repeat split. exact Ht.
      * rewrite (walletFromBytes_HD _ H Ht). eexists; split; [reflexivity|].
        right. right. right. exists info. repeat split. exact Ht.
      * rewrite (walletFromBytes_unregistered _ H Ht).
        eexists; split; [reflexivity|].
        right. left. exists info. repeat split. exact Ht.
  - reflexivity.
  - unfold OpenWallet. cbn.
    destruct (RetrieveWallet env (pkg_store env) name) as [bs [e|]]; cbn.
    + eexists; reflexivity.
    + destruct (walletFromBytes_returns bs) as [r Hr].
      unfold outcome_of in Hr.
      destruct (walletFromBytes env bs) as [l o]. cbn in Hr. subst o.
      eexists; reflexivity.
  - exact (proj1 (proj2 (proj2 (invariant_run schedule invariant_Wallets)))).
Qed.

(** ** Further properties of [wallet.go] *)

(** *** [OpenWallet] *)

Lemma OpenWallet_found name opts data :
  RetrieveWallet env (pkg_store env) name = (data, None) ->
  OpenWallet env name opts
  = (CallRetrieveWallet (pkg_store env) name :: calls (walletFromBytes env data),
     outcome_of (walletFromBytes env data)).
Proof.
  intros H. unfold OpenWallet. cbn. rewrite H. cbn.
  destruct (walletFromBytes env data) as [l o]. reflexivity.
Qed.

Lemma OpenWallet_store_error_aux name opts data e :
  RetrieveWallet env (pkg_store env) name = (data, Some e) ->
  OpenWallet env name opts
  = ([CallRetrieveWallet (pkg_store env) name], Returned (None, Some e)).
Proof. intros H. unfold OpenWallet. cbn. rewrite H. reflexivity. Qed.

(** The three logs [walletFromBytes] can leave. *)
Lemma walletFromBytes_calls data :
  calls (walletFromBytes env data) = [] \/
  calls (walletFromBytes env data)
  = [CallNdDeserializeWallet data (pkg_store env) (pkg_encryptor env)] \/
  calls (walletFromBytes env data)
  = [CallHdDeserializeWallet data (pkg_store env) (pkg_encryptor env)].
Proof.
  destruct (Unmarshal_walletInfo env data zero_walletInfo) as [info [e|]] eqn:H.
  - rewrite (walletFromBytes_unmarshal_error _ H). left. reflexivity.
  - destruct (variant_of_tag (info_Type info)) as [[|]|] eqn:Ht.
    + rewrite (walletFromBytes_ND _ H Ht). right. left. reflexivity.
    + rewrite (walletFromBytes_HD _ H Ht). right. right. reflexivity.
    + rewrite (walletFromBytes_unregistered _ H Ht). left. reflexivity.
Qed.

(** X1: when the store answers [RetrieveWallet] with an error,
    [OpenWallet] returns a nil wallet and that very error, and calls nothing
    else: the bytes the store returned beside the error are not
    deserialized. *)
Theorem OpenWallet_store_error name opts data e :
  RetrieveWallet env (pkg_store env) name = (data, Some e) ->
  OpenWallet env name opts
  = ([CallRetrieveWallet (pkg_store env) name], Returned (None, Some e)).
Proof. exact (@OpenWallet_store_error_aux name opts data e). Qed.

(** X2: when the store holds the name, [OpenWallet] hands the stored bytes,
    whole, to the [DeserializeWallet] of the variant their type names and
    returns its answer; for a type that names no variant it returns the
    unsupported-type error after the one call to the store. *)
Theorem OpenWallet_opens_stored_bytes name opts data info :
  RetrieveWallet env (pkg_store env) name = (data, None) ->
  Unmarshal_walletInfo env data zero_walletInfo = (info, None) ->
  (variant_of_tag (info_Type info) = Some ND ->
   OpenWallet env name opts
   = ([CallRetrieveWallet (pkg_store env) name;
       CallNdDeserializeWallet data (pkg_store env) (pkg_encryptor env)],
      Returned (nd_DeserializeWallet env data (pkg_store env) (pkg_encryptor env))))
  /\
  (variant_of_tag (info_Type info) = Some HD ->
   OpenWallet env name opts
   = ([CallRetrieveWallet (pkg_store env) name;
       CallHdDeserializeWallet data (pkg_store env) (pkg_encryptor env)],
      Returned (hd_DeserializeWallet env data (pkg_store env) (pkg_encryptor env))))
  /\
  (variant_of_tag (info_Type info) = None ->
   OpenWallet env name opts
   = ([CallRetrieveWallet (pkg_store env) name],
      Returned (None, Some (Errorf "unsupported wallet type %q"
                                   (info_Type info))))).
Proof.
  intros Hr Hu. rewrite (OpenWallet_found _ _ Hr).
  split; [|split]; intros Ht.
  - rewrite (walletFromBytes_ND _ Hu Ht). reflexivity.
  - rewrite (walletFromBytes_HD _ Hu Ht). reflexivity.
  - rewrite (walletFromBytes_unregistered _ Hu Ht). reflexivity.
Qed.

(** X3: whatever options it is given, every call [OpenWallet] makes goes to
    the package store, and every variant it calls gets the package
    encryptor. *)
Theorem OpenWallet_calls_use_package_variables name opts :
  Forall (addressed_to (pkg_store env) (pkg_encryptor env))
         (calls (OpenWallet env name opts)).
Proof.
  destruct (RetrieveWallet env (pkg_store env) name) as [data [e|]] eqn:Hr.
  - rewrite (OpenWallet_store_error_aux _ _ Hr).
    constructor; [split; [reflexivity | exact I] | constructor].
  - rewrite (OpenWallet_found _ _ Hr). cbn [calls fst].
    constructor; [split; [reflexivity | exact I]|].
    destruct (walletFromBytes_calls data) as [H|[H|H]]; rewrite H.
    + constructor.
    + constructor; [split; reflexivity | constructor].
    + constructor; [split; reflexivity | constructor].
Qed.

(** *** [ImportWallet] *)

(** X4: when [ecodec.Decrypt] fails, [ImportWallet] returns a nil wallet
    and the error of [Decrypt] as it is; the data returned beside the error
    is not parsed and no variant is called. *)
Theorem ImportWallet_decrypt_failure blob pass plain e :
  Decrypt env blob pass = (plain, Some e) ->
  ImportWallet env blob pass = ([CallDecrypt blob pass], Returned (None, Some e)).
Proof. exact (@ImportWallet_decrypt_error blob pass plain e). Qed.

(** X5: when decryption succeeds and [json.Unmarshal] of the plaintext
    fails, [ImportWallet] returns a nil wallet and the error of
    [Unmarshal] as it is, and no variant is called. *)
Theorem ImportWallet_unmarshal_failure blob pass plain ext e :
  Decrypt env blob pass = (plain, None) ->
  Unmarshal_walletExt env plain zero_walletExt = (ext, Some e) ->
  ImportWallet env blob pass = ([CallDecrypt blob pass], Returned (None, Some e)).
Proof. exact (@ImportWallet_unmarshal_error blob pass plain ext e). Qed.

(** X6: [ImportWallet] panics exactly when decryption succeeds, the
    plaintext unmarshals without error and the [Wallet] pointer is left
    nil; on every other input it returns. *)
Theorem ImportWallet_panics_iff_nil_Wallet blob pass :
  outcome_of (ImportWallet env blob pass) = Panicked
  <-> exists plain ext,
      Decrypt env blob pass = (plain, None) /\
      Unmarshal_walletExt env plain zero_walletExt = (ext, None) /\
      ext_Wallet ext = None.
Proof.
  split.
  - destruct (Decrypt env blob pass) as [plain [e|]] eqn:Hd.
    { rewrite (ImportWallet_decrypt_error _ _ Hd). discriminate. }
    destruct (Unmarshal_walletExt env plain zero_walletExt) as [ext [e|]] eqn:Hu.
    { rewrite (ImportWallet_unmarshal_error _ _ Hd Hu). discriminate. }
    destruct (ext_Wallet ext) as [w|] eqn:Hw.
    + rewrite (ImportWallet_switch _ _ Hd Hu Hw).
      destruct (String.eqb (info_Type w) "nd" || _); [discriminate|].
      destruct (String.eqb (info_Type w) "hd" || _); discriminate.
    + intros _. exists plain, ext. repeat split; assumption.
  - intros (plain & ext & Hd & Hu & Hw).
    rewrite (ImportWallet_nil_Wallet _ _ Hd Hu Hw). reflexivity.
Qed.

(** X7: [ImportWallet] calls [Decrypt] first, on the blob and passphrase it
    was given, and after it at most one [Import], of one variant, on that
    same blob and passphrase with the package store and encryptor: the
    decrypted plaintext is never handed on. *)
Theorem ImportWallet_calls blob pass :
  calls (ImportWallet env blob pass) = [CallDecrypt blob pass] \/
  calls (ImportWallet env blob pass)
  = [CallDecrypt blob pass;
     CallNdImport blob pass (pkg_store env) (pkg_encryptor env)] \/
  calls (ImportWallet env blob pass)
  = [CallDecrypt blob pass;
     CallHdImport blob pass (pkg_store env) (pkg_encryptor env)].
Proof.
  destruct (Decrypt env blob pass) as [plain [e|]] eqn:Hd.
  { rewrite (ImportWallet_decrypt_error _ _ Hd). left. reflexivity. }
  destruct (Unmarshal_walletExt env plain zero_walletExt) as [ext [e|]] eqn:Hu.
  { rewrite (ImportWallet_unmarshal_error _ _ Hd Hu). left. reflexivity. }
  destruct (ext_Wallet ext) as [w|] eqn:Hw.
  - rewrite (ImportWallet_switch _ _ Hd Hu Hw).
    destruct (String.eqb (info_Type w) "nd" || _); [right; left; reflexivity|].
    destruct (String.eqb (info_Type w) "hd" || _);
      [right; right; reflexivity | left; reflexivity].
  - rewrite (ImportWallet_nil_Wallet _ _ Hd Hu Hw). left. reflexivity.
Qed.

(** *** [CreateWallet] and its options *)

(** Records that agree on a field still agree on it after the same
    option. *)
Lemma same_field_apply (x : setting Store Encryptor) f o o' :
  same_field f o o' ->
  same_field f (apply (option_of x) o) (apply (option_of x) o').
Proof. destruct x, f; cbn; congruence. Qed.

Lemma same_field_apply_all (xs : list (setting Store Encryptor)) f :
  forall o o',
    same_field f o o' ->
    same_field f (apply_all (map (@option_of _ _) xs) o)
                 (apply_all (map (@option_of _ _) xs) o').
Proof.
  induction xs as [|x xs IH]; intros o o' H; cbn [map]; [exact H|].
  rewrite !apply_all_cons. apply IH, same_field_apply, H.
Qed.

(** The field an option list ends with, when the last option on a field is
    known. *)
Lemma last_setting_decides (pre post : list (setting Store Encryptor)) x base :
  (forall y, In y post -> target y <> target x) ->
  same_field (target x)
             (apply_all (map (@option_of _ _) (pre ++ x :: post)) base)
             (apply (option_of x) base).
Proof.
  intros Hpost. rewrite map_app, apply_all_app. cbn [map].
  rewrite apply_all_cons. eapply same_field_trans.
  - apply untargeted_field_kept. exact Hpost.
  - apply option_value.
Qed.

(** Dropping an option changes no field but the one it targets. *)
Lemma dropped_setting (pre post : list (setting Store Encryptor)) x f base :
  f <> target x ->
  same_field f
             (apply_all (map (@option_of _ _) (pre ++ x :: post)) base)
             (apply_all (map (@option_of _ _) (pre ++ post)) base).
Proof.
  intros Hf. rewrite !map_app, !apply_all_app. cbn [map].
  rewrite apply_all_cons. apply same_field_apply_all.
  apply option_sets_one_field. exact Hf.
Qed.

(** X8: [CreateWallet] calls no collaborator exactly when the effective
    type is none of the four strings nd, non-deterministic, hd and
    hierarchical deterministic; the comparison is exact. *)
Theorem CreateWallet_calls_nothing_iff name opts :
  calls (CreateWallet env name opts) = []
  <-> ~ In (walletType (CreateWallet_options env opts))
           ["nd"; "non-deterministic"; "hd"; "hierarchical deterministic"].
Proof.
  rewrite CreateWallet_switch. cbv zeta.
  set (t := walletType (CreateWallet_options env opts)).
  destruct (String.eqb_spec t "nd") as [E|N1]; cbn [orb].
  { split; [discriminate | intros H; exfalso; apply H; rewrite E; cbn; tauto]. }
  destruct (String.eqb_spec t "non-deterministic") as [E|N2].
  { split; [discriminate | intros H; exfalso; apply H; rewrite E; cbn; tauto]. }
  destruct (String.eqb_spec t "hd") as [E|N3]; cbn [orb].
  { split; [discriminate | intros H; exfalso; apply H; rewrite E; cbn; tauto]. }
  destruct (String.eqb_spec t "hierarchical deterministic") as [E|N4].
  { split; [discriminate | intros H; exfalso; apply H; rewrite E; cbn; tauto]. }
  split; [|reflexivity].
  intros _ [H|[H|[H|[H|[]]]]]; congruence.
Qed.

(** X9: when no option sets the type, [CreateWallet] creates an ND wallet:
    it calls [nd.CreateWallet] with the name and the effective store and
    encryptor and returns its answer. *)
Theorem CreateWallet_without_type_is_ND name (xs : list (setting Store Encryptor)) :
  (forall y, In y xs -> target y <> FWalletType) ->
  CreateWallet env name (map (@option_of _ _) xs)
  = ([CallNdCreateWallet name
        (store (CreateWallet_options env (map (@option_of _ _) xs)))
        (encryptor (CreateWallet_options env (map (@option_of _ _) xs)))],
     Returned (nd_CreateWallet env name
        (store (CreateWallet_options env (map (@option_of _ _) xs)))
        (encryptor (CreateWallet_options env (map (@option_of _ _) xs))))).
Proof.
  intros Hxs. rewrite CreateWallet_switch. cbv zeta.
  pose proof (@untargeted_field_kept xs FWalletType
                {| store := pkg_store env; encryptor := pkg_encryptor env;
                   passphrase := []; walletType := "nd" |} Hxs) as Ht.
  change (walletType (CreateWallet_options env (map (@option_of _ _) xs))
          = "nd") in Ht.
  rewrite Ht. reflexivity.
Qed.

(** X10: the last option that sets the type decides the variant
    [CreateWallet] dispatches to, whatever the options before it and
    whatever the other options after it. *)
Theorem CreateWallet_last_type_decides name
        (pre post : list (setting Store Encryptor)) t :
  (forall y, In y post -> target y <> FWalletType) ->
  selected (CreateWallet env name
              (map (@option_of _ _) (pre ++ SetType t :: post)))
  = variant_of_tag t.
Proof.
  intros Hpost. rewrite CreateWallet_switch. cbv zeta.
  pose proof (@last_setting_decides pre post (SetType t)
                {| store := pkg_store env; encryptor := pkg_encryptor env;
                   passphrase := []; walletType := "nd" |} Hpost) as Ht.
  change (walletType (CreateWallet_options env
            (map (@option_of _ _) (pre ++ SetType t :: post))) = t) in Ht.
  rewrite Ht. switch_on t; reflexivity.
Qed.

(** X11: unless the effective type names the HD variant, a passphrase
    option has no effect on [CreateWallet]: with the option and without it
    the calls and the result are the same. *)
Theorem CreateWallet_passphrase_only_matters_for_HD name
        (pre post : list (setting Store Encryptor)) p :
  variant_of_tag
    (walletType (CreateWallet_options env (map (@option_of _ _) (pre ++ post))))
  <> Some HD ->
  CreateWallet env name (map (@option_of _ _) (pre ++ SetPassphrase p :: post))
  = CreateWallet env name (map (@option_of _ _) (pre ++ post)).
Proof.
  intros Hv. rewrite !CreateWallet_switch. cbv zeta.
  set (base := {| store := pkg_store env; encryptor := pkg_encryptor env;
                  passphrase := []; walletType := "nd" |}).
  assert (Hs : same_field FStore
                 (apply_all (map (@option_of _ _) (pre ++ SetPassphrase p :: post)) base)
                 (apply_all (map (@option_of _ _) (pre ++ post)) base))
    by (apply dropped_setting; discriminate).
  assert (He : same_field FEncryptor
                 (apply_all (map (@option_of _ _) (pre ++ SetPassphrase p :: post)) base)
                 (apply_all (map (@option_of _ _) (pre ++ post)) base))
    by (apply dropped_setting; discriminate).
  assert (Ht : same_field FWalletType
                 (apply_all (map (@option_of _ _) (pre ++ SetPassphrase p :: post)) base)
                 (apply_all (map (@option_of _ _) (pre ++ post)) base))
    by (apply dropped_setting; discriminate).
  change (apply_all (map (@option_of _ _) (pre ++ SetPassphrase p :: post)) base)
    with (CreateWallet_options env
            (map (@option_of _ _) (pre ++ SetPassphrase p :: post)))
    in Hs, He, Ht.
  change (apply_all (map (@option_of _ _) (pre ++ post)) base)
    with (CreateWallet_options env (map (@option_of _ _) (pre ++ post)))
    in Hs, He, Ht.
  cbn [same_field] in Hs, He, Ht. rewrite Hs, He, Ht.
  switch_on (walletType (CreateWallet_options env
                           (map (@option_of _ _) (pre ++ post))));
    try reflexivity.
  contradiction.
Qed.

(** X12: when no option sets the passphrase and the effective type names
    the HD variant, [CreateWallet] does not fail by itself: it forwards the
    empty passphrase to [hd.CreateWallet] and returns its answer. *)
Theorem CreateWallet_HD_without_passphrase name
        (xs : list (setting Store Encryptor)) :
  (forall y, In y xs -> target y <> FPassphrase) ->
  variant_of_tag
    (walletType (CreateWallet_options env (map (@option_of _ _) xs))) = Some HD ->
  CreateWallet env name (map (@option_of _ _) xs)
  = ([CallHdCreateWallet name []
        (store (CreateWallet_options env (map (@option_of _ _) xs)))
        (encryptor (CreateWallet_options env (map (@option_of _ _) xs)))],
     Returned (hd_CreateWallet env name []
        (store (CreateWallet_options env (map (@option_of _ _) xs)))
        (encryptor (CreateWallet_options env (map (@option_of _ _) xs))))).
Proof.
  intros Hxs Hv. rewrite CreateWallet_switch. cbv zeta.
  destruct (tag_HD _ Hv) as [-> ->].
  pose proof (@untargeted_field_kept xs FPassphrase
                {| store := pkg_store env; encryptor := pkg_encryptor env;
                   passphrase := []; walletType := "nd" |} Hxs) as Hp.
  change (passphrase (CreateWallet_options env (map (@option_of _ _) xs))
          = []) in Hp.
  rewrite Hp. reflexivity.
Qed.

(** X13: two options that set different fields can be applied in either
    order: the records are the same. *)
Theorem options_on_different_fields_commute (x y : setting Store Encryptor) o :
  target x <> target y ->
  apply (option_of x) (apply (option_of y) o)
  = apply (option_of y) (apply (option_of x) o).
Proof. destruct x, y; cbn; intros H; try reflexivity; contradiction. Qed.

(** X14: an option overwrites an earlier option on the same field: the
    record is the one the later option alone gives. *)
Theorem option_overwrites_same_field (x y : setting Store Encryptor) o :
  target x = target y ->
  apply (option_of x) (apply (option_of y) o) = apply (option_of x) o.
Proof. destruct x, y; cbn; intros H; try reflexivity; discriminate. Qed.

(** *** More on [Wallets] *)

Lemma walletFromBytes_success data w :
  outcome_of (walletFromBytes env data) = Returned (w, None) ->
  nd_DeserializeWallet env data (pkg_store env) (pkg_encryptor env) = (w, None) \/
  hd_DeserializeWallet env data (pkg_store env) (pkg_encryptor env) = (w, None).
Proof.
  destruct (Unmarshal_walletInfo env data zero_walletInfo) as [info [e|]] eqn:H.
  - rewrite (walletFromBytes_unmarshal_error _ H). discriminate.
  - destruct (variant_of_tag (info_Type info)) as [[|]|] eqn:Ht.
    + rewrite (walletFromBytes_ND _ H Ht). cbn. intros [= E]. left. exact E.
    + rewrite (walletFromBytes_HD _ H Ht). cbn. intros [= E]. right. exact E.
    + rewrite (walletFromBytes_unregistered _ H Ht). discriminate.
Qed.

Lemma In_wallets_of payloads w :
  In w (wallets_of env payloads) <->
  exists data, In data payloads /\
               outcome_of (walletFromBytes env data) = Returned (w, None).
Proof.
  unfold wallets_of. rewrite in_flat_map. split.
  - intros (data & Hin & Hw). exists data. split; [exact Hin|].
    destruct (outcome_of (walletFromBytes env data)) as [[w' [e|]]|];
      cbn in Hw; try contradiction.
    destruct Hw as [<-|[]]. reflexivity.
  - intros (data & Hin & Hw). exists data. split; [exact Hin|].
    rewrite Hw. now left.
Qed.

Lemma wallets_of_length payloads :
  length (wallets_of env payloads) <= length payloads.
Proof.
  induction payloads as [|data rest IH]; [apply Nat.le_refl|].
  rewrite wallets_of_cons, length_app. cbn [length].
  destruct (outcome_of (walletFromBytes env data)) as [[w [e|]]|]; cbn [length]; lia.
Qed.

(** X15: the channel never holds more than 1024 wallets, under any
    interleaving of the goroutine and the consumer. *)
Theorem Wallets_buffer_bounded schedule :
  length (buffer (run env schedule (Wallets env))) <= 1024.
Proof.
  change 1024 with capacity.
  exact (proj2 (proj2 (proj2 (invariant_run schedule invariant_Wallets)))).
Qed.

Lemma finished_is_final more :
  forall s : state Wallet,
    prod s = Finished ->
    prod (run env more s) = Finished /\
    closed (run env more s) = closed s /\
    received (run env more s) ++ buffer (run env more s)
    = received s ++ buffer s.
Proof.
  induction more as [|a more IH]; intros s Hp; [repeat split; assumption|].
  rewrite run_cons. destruct a; cbn [step].
  - unfold producer_step. rewrite Hp. apply IH, Hp.
  - destruct (consumer_step s) as [s'|] eqn:Hc; [|apply IH, Hp].
    destruct (consumer_step_cases _ Hc) as (w & b & Hb & ->).
    destruct (IH {| prod := prod s; buffer := b; closed := closed s;
                    received := received s ++ [w] |} Hp) as (H1 & H2 & H3).
    repeat split; [exact H1 | exact H2 |].
    rewrite H3. cbn [received buffer]. rewrite Hb, <- app_assoc. reflexivity.
Qed.

(** X17: once the channel is closed nothing is sent on it any more: the
    goroutine stays over, the channel stays closed, and the consumer only
    takes what was already in the channel. *)
Theorem Wallets_closed_is_final schedule more :
  closed (run env schedule (Wallets env)) = true ->
  prod (run env (schedule ++ more) (Wallets env)) = Finished /\
  closed (run env (schedule ++ more) (Wallets env)) = true /\
  received (run env (schedule ++ more) (Wallets env))
    ++ buffer (run env (schedule ++ more) (Wallets env))
  = received (run env schedule (Wallets env))
    ++ buffer (run env schedule (Wallets env)).
Proof.
  intros Hclosed. rewrite run_app.
  destruct (invariant_run schedule invariant_Wallets) as (_ & Hcl & _ & _).
  assert (Hp : prod (run env schedule (Wallets env)) = Finished).
  { rewrite Hcl in Hclosed.
    destruct (prod (run env schedule (Wallets env))); try discriminate.
    reflexivity. }
  destruct (finished_is_final more _ Hp) as (H1 & H2 & H3).
  repeat split; [exact H1 | rewrite H2; exact Hclosed | exact H3].
Qed.

(** X18: every wallet the consumer receives is the wallet that
    [nd.DeserializeWallet] or [hd.DeserializeWallet] returned, with a nil
    error, for one of the payloads of the store, called with the package
    store and encryptor. *)
Theorem Wallets_yields_only_deserialized_wallets schedule :
  Forall (fun w =>
            exists data,
              In data (RetrieveWallets env (pkg_store env)) /\
              (nd_DeserializeWallet env data (pkg_store env) (pkg_encryptor env)
               = (w, None) \/
               hd_DeserializeWallet env data (pkg_store env) (pkg_encryptor env)
               = (w, None)))
         (received (run env schedule (Wallets env))).
Proof.
  destruct (invariant_run schedule invariant_Wallets) as (Hseq & _).
  apply Forall_forall. intros w Hw.
  assert (Hin : In w (wallets_of env (RetrieveWallets env (pkg_store env)))).
  { rewrite <- Hseq. apply in_or_app. left. exact Hw. }
  apply In_wallets_of in Hin. destruct Hin as (data & Hdata & Hr).
  exists data. split; [exact Hdata | exact (walletFromBytes_success _ Hr)].
Qed.

(** X19: the wallets received and the wallets in the channel are together
    never more than the payloads of the store. *)
Theorem Wallets_yields_at_most_the_payloads schedule :
  length (received (run env schedule (Wallets env)))
  + length (buffer (run env schedule (Wallets env)))
  <= length (RetrieveWallets env (pkg_store env)).
Proof.
  destruct (invariant_run schedule invariant_Wallets) as (Hseq & _).
  pose proof (wallets_of_length (RetrieveWallets env (pkg_store env))) as Hlen.
  rewrite <- Hseq, !length_app in Hlen. lia.
Qed.

Lemma producer_run_add k j (s : state Wallet) :
  producer_run env (k + j) s = producer_run env j (producer_run env k s).
Proof. unfold producer_run. rewrite repeat_app. apply run_app. Qed.

Lemma producer_run_blocked j (s : state Wallet) :
  producer_step env s = None -> producer_run env j s = s.
Proof.
  intros H. induction j as [|j IH]; [reflexivity|].
  rewrite producer_run_S. cbn [step]. rewrite H. exact IH.
Qed.

Lemma producer_run_received k :
  forall s : state Wallet, received (producer_run env k s) = received s.
Proof.
  induction k as [|k IH]; intros s; [reflexivity|].
  rewrite producer_run_S, IH. cbn [step].
  destruct (producer_step env s) as [s'|] eqn:Hp; [|reflexivity].
  destruct (producer_step_cases _ Hp)
    as [[_ ->] | [(? & ? & ? & _ & _ & ->)
       | [(? & ? & ? & ? & _ & _ & ->) | (? & ? & _ & _ & ->)]]];
    reflexivity.
Qed.

(** Left alone, the goroutine comes to a state in which it cannot move. *)
Lemma producer_comes_to_rest all :
  forall n s,
    invariant env all s -> work s <= n ->
    exists k, producer_step env (producer_run env k s) = None.
Proof.
  induction n as [|n IH]; intros s Hinv Hwork;
    destruct (producer_step env s) as [s'|] eqn:Hp.
  - pose proof (producer_step_work _ Hp). lia.
  - exists 0. exact Hp.
  - pose proof (producer_step_work _ Hp) as Hlt.
    destruct (IH s' (invariant_producer_step Hinv Hp)) as [k Hk]; [lia|].
    exists (S k). rewrite producer_run_S. cbn [step]. rewrite Hp. exact Hk.
  - exists 0. exact Hp.
Qed.

(** X20: when the consumer never reads, the goroutine fills the channel
    with the first 1024 wallets of the enumeration and stays there: from
    some step on the channel holds exactly these and nothing has been
    received. *)
Theorem unread_channel_holds_first_wallets :
  exists k, forall j,
      received (producer_run env (k + j) (Wallets env)) = [] /\
      buffer (producer_run env (k + j) (Wallets env))
      = firstn capacity (wallets_of env (RetrieveWallets env (pkg_store env))).
Proof.
  destruct (@producer_comes_to_rest _ (work (Wallets env)) (Wallets env)
              invariant_Wallets (Nat.le_refl _)) as [k Hk].
  exists k. intros j. rewrite producer_run_add, (producer_run_blocked j _ Hk).
  split; [apply producer_run_received|].
  pose proof (invariant_run (repeat Producer k) invariant_Wallets)
    as (Hseq & _ & Hcr & Hcap).
  fold (producer_run env k (Wallets env)) in Hseq, Hcr, Hcap.
  rewrite producer_run_received in Hseq. cbn [Wallets received app] in Hseq.
  rewrite <- Hseq. unfold producer_step in Hk.
  destruct (prod (producer_run env k (Wallets env)))
    as [[|data rest]|wallet rest| |].
  - discriminate.
  - destruct (outcome_of (walletFromBytes env data)) as [[? [?|]]|]; discriminate.
  - destruct (Nat.ltb_spec (length (buffer (producer_run env k (Wallets env))))
                           capacity) as [|Hge]; [discriminate|].
    rewrite firstn_app.
    replace (capacity - length (buffer (producer_run env k (Wallets env))))
      with 0 by lia.
    rewrite firstn_O, app_nil_r, firstn_all2 by lia. reflexivity.
  - cbn [unsent]. rewrite app_nil_r, firstn_all2 by lia. reflexivity.
  - contradiction.
Qed.

End Properties.

(** ** Concrete runs *)

(** C1: [OpenWallet] with a store and an encryptor given by options.  The
    options resolve to the backup store, which holds alice and not bob;
    [OpenWallet] asks the package store all the same: alice is not found,
    and bob is opened from the package store, with the package store and
    encryptor handed to the variant. *)
Theorem OpenWallet_reads_the_package_store :
  let opts := [WithStore Sample.BackupStore; WithEncryptor Sample.Unencrypted] in
  store (OpenWallet_options Sample.env opts) = Sample.BackupStore /\
  encryptor (OpenWallet_options Sample.env opts) = Sample.Unencrypted /\
  RetrieveWallet Sample.env Sample.BackupStore "alice"
  = (Sample.data_of (Sample.envelope "alice" "nd"), None) /\
  RetrieveWallet Sample.env Sample.BackupStore "bob"
  = ([], Some (ExternalError Sample.NotFound)) /\
  OpenWallet Sample.env "alice" opts
  = ([CallRetrieveWallet Sample.MainStore "alice"],
     Returned (None, Some (ExternalError Sample.NotFound))) /\
  OpenWallet Sample.env "bob" opts
  = ([CallRetrieveWallet Sample.MainStore "bob";
      CallHdDeserializeWallet (Sample.data_of (Sample.envelope "bob" "hd"))
                              Sample.MainStore Sample.Keystore],
     Returned (Some {| Sample.kind := HD;
                       Sample.source := Sample.data_of (Sample.envelope "bob" "hd");
                       Sample.home := Sample.MainStore |}, None)).
Proof. repeat split. Qed.

(** C5: [ImportWallet] on a blob whose plaintext is the empty JSON object.
    Decryption succeeds, [json.Unmarshal] succeeds and leaves the [Wallet]
    pointer nil, and reading [ext.Wallet.Type] panics: no error is
    returned. *)
Theorem ImportWallet_panics_on_empty_object :
  let blob := Sample.data_of "{}" in
  let pass := Sample.data_of "secret" in
  Decrypt Sample.env blob pass = (Sample.data_of "{}", None) /\
  Unmarshal_walletExt Sample.env (Sample.data_of "{}") zero_walletExt
  = (zero_walletExt, None) /\
  ImportWallet Sample.env blob pass = ([CallDecrypt blob pass], Panicked).
Proof. repeat split. Qed.

(** C9 as stated fails: the store yields 1025 wallets and the consumer
    never reads; the goroutine never reaches [close(ch)]. *)
Lemma abandoned_producer_stays_blocked :
  ~ exists k,
      finished (prod (producer_run (Sample.crowded 1025) k
                                   (Wallets (Sample.crowded 1025)))) = true.
Proof.
  intros [k Hk].
  pose proof (producer_run_finished_fits _
                (invariant_Wallets (Sample.crowded 1025)) Hk) as H.
  apply Nat.leb_le in H. vm_compute in H. discriminate.
Qed.

(** The enumeration of the main store, whose four payloads are the wallet
    alice of type nd, bytes that are not JSON, the wallet bob of type hd and
    a wallet of the unknown type xx: the goroutine runs, then the consumer
    drains the channel, and has received the nd wallet and the hd wallet,
    in this order, and nothing for the two other payloads. *)
Lemma Wallets_yields_deserialized_in_order_witness :
  received (run Sample.env (repeat Producer 20 ++ repeat Consumer 20)
                (Wallets Sample.env))
  = [Some {| Sample.kind := ND;
             Sample.source := Sample.data_of (Sample.envelope "alice" "nd");
             Sample.home := Sample.MainStore |};
     Some {| Sample.kind := HD;
             Sample.source := Sample.data_of (Sample.envelope "bob" "hd");
             Sample.home := Sample.MainStore |}].
Proof.
  apply (proj1 (proj2 (proj2 (Wallets_yields_deserialized_in_order
                                Sample.env
                                (repeat Producer 20 ++ repeat Consumer 20)))));
    reflexivity.
Defined.

Lemma switches_agree_witness :
  selected (CreateWallet Sample.env "bob" [WithType "hd"]) = Some HD /\
  selected (ImportWallet Sample.env
              (Sample.data_of (Sample.export (Sample.envelope "bob" "hd")))
              (Sample.data_of "secret")) = Some HD /\
  selected (walletFromBytes Sample.env
              (Sample.data_of (Sample.envelope "bob" "hd"))) = Some HD.
Proof.
  pose proof (@switches_agree _ _ _ _ Sample.env "hd" "bob" [WithType "hd"]
                (Sample.data_of (Sample.export (Sample.envelope "bob" "hd")))
                (Sample.data_of "secret")
                (Sample.data_of (Sample.export (Sample.envelope "bob" "hd")))
                {| ext_Wallet := Some {| info_ID := zero_UUID; info_Name := "bob";
                                         info_Type := "hd" |} |}
                {| info_ID := zero_UUID; info_Name := "bob"; info_Type := "hd" |}
                (Sample.data_of (Sample.envelope "bob" "hd"))
                {| info_ID := zero_UUID; info_Name := "bob"; info_Type := "hd" |}
                eq_refl eq_refl eq_refl eq_refl eq_refl eq_refl eq_refl)
    as (H1 & H2 & H3 & _).
  exact (conj H1 (conj H2 H3)).
Defined.

Lemma unregistered_tag_is_an_error_witness :
  CreateWallet Sample.env "carol" [WithType "xx"]
  = ([], Returned (None, Some (Errorf "unhandled wallet type %q" "xx"))) /\
  outcome_of (ImportWallet Sample.env
                (Sample.data_of (Sample.export (Sample.envelope "carol" "xx")))
                (Sample.data_of "secret"))
  = Returned (None, Some (Errorf "unsupported wallet type %q" "xx")) /\
  walletFromBytes Sample.env (Sample.data_of (Sample.envelope "carol" "xx"))
  = ([], Returned (None, Some (Errorf "unsupported wallet type %q" "xx"))) /\
  Error Sample.quote Sample.message (Errorf "unsupported wallet type %q" "xx")
  = ("unsupported wallet type " ++ Sample.quoted "xx")%string.
Proof.
  pose proof (@unregistered_tag_is_an_error _ _ _ _ Sample.env "xx" "carol"
                [WithType "xx"]
                (Sample.data_of (Sample.export (Sample.envelope "carol" "xx")))
                (Sample.data_of "secret")
                (Sample.data_of (Sample.export (Sample.envelope "carol" "xx")))
                {| ext_Wallet := Some {| info_ID := zero_UUID; info_Name := "carol";
                                         info_Type := "xx" |} |}
                {| info_ID := zero_UUID; info_Name := "carol"; info_Type := "xx" |}
                (Sample.data_of (Sample.envelope "carol" "xx"))
                {| info_ID := zero_UUID; info_Name := "carol"; info_Type := "xx" |}
                eq_refl eq_refl eq_refl eq_refl eq_refl eq_refl eq_refl eq_refl)
    as (H1 & H2 & H3 & H4).
  split; [|split; [|split]].
  - exact H1.
  - rewrite H2. reflexivity.
  - exact H3.
  - exact (proj2 (H4 Sample.quote Sample.message)).
Defined.

Lemma ImportWallet_forwards_to_variant_witness :
  let blob := Sample.data_of (Sample.export (Sample.envelope "erin"
                                "hierarchical deterministic")) in
  let pass := Sample.data_of "secret" in
  ImportWallet Sample.env blob pass
  = ([CallDecrypt blob pass;
      CallHdImport blob pass Sample.MainStore Sample.Keystore],
     Returned (hd_Import Sample.env blob pass Sample.MainStore Sample.Keystore)).
Proof.
  intros blob pass.
  apply (proj2 (@ImportWallet_forwards_to_variant _ _ _ _ Sample.env blob pass
                  blob
                  {| ext_Wallet :=
                       Some {| info_ID := zero_UUID; info_Name := "erin";
                               info_Type := "hierarchical deterministic" |} |}
                  {| info_ID := zero_UUID; info_Name := "erin";
                     info_Type := "hierarchical deterministic" |}
                  eq_refl eq_refl eq_refl)).
  reflexivity.
Defined.


Lemma options_last_write_wins_witness :
  walletType
    (apply_all
       (map (@option_of _ _)
            ([SetType "hd"; SetStore Sample.BackupStore]
               ++ SetType "nd" :: [SetPassphrase (Sample.data_of "pass")]))
       (OpenWallet_options Sample.env []))
  = "nd".
Proof.
  apply (proj2 (proj2 (proj2 (options_last_write_wins
                                (OpenWallet_options Sample.env []))))
           [SetType "hd"; SetStore Sample.BackupStore]
           [SetPassphrase (Sample.data_of "pass")]
           (SetType "nd")).
  intros y [<-|[]]. discriminate.
Defined.

(** ** Concrete runs of the further properties *)

Lemma OpenWallet_store_error_witness :
  OpenWallet Sample.env "zoe" [WithStore Sample.BackupStore]
  = ([CallRetrieveWallet Sample.MainStore "zoe"],
     Returned (None, Some (ExternalError Sample.NotFound))).
Proof.
  exact (@OpenWallet_store_error _ _ _ _ Sample.env "zoe"
           [WithStore Sample.BackupStore] []
           (ExternalError Sample.NotFound) eq_refl).
Defined.

Lemma OpenWallet_opens_stored_bytes_witness :
  OpenWallet Sample.env "bob" []
  = ([CallRetrieveWallet Sample.MainStore "bob";
      CallHdDeserializeWallet (Sample.data_of (Sample.envelope "bob" "hd"))
                              Sample.MainStore Sample.Keystore],
     Returned (hd_DeserializeWallet Sample.env
                 (Sample.data_of (Sample.envelope "bob" "hd"))
                 Sample.MainStore Sample.Keystore)).
Proof.
  exact (proj1 (proj2 (@OpenWallet_opens_stored_bytes _ _ _ _ Sample.env "bob" []
                         (Sample.data_of (Sample.envelope "bob" "hd"))
                         {| info_ID := zero_UUID; info_Name := "bob";
                            info_Type := "hd" |}
                         eq_refl eq_refl)) eq_refl).
Defined.

Lemma ImportWallet_decrypt_failure_witness :
  ImportWallet Sample.env (Sample.data_of "{}") (Sample.data_of "wrong")
  = ([CallDecrypt (Sample.data_of "{}") (Sample.data_of "wrong")],
     Returned (None, Some (ExternalError Sample.CannotDecrypt))).
Proof.
  exact (@ImportWallet_decrypt_failure _ _ _ _ Sample.env
           (Sample.data_of "{}") (Sample.data_of "wrong") []
           (ExternalError Sample.CannotDecrypt) eq_refl).
Defined.

Lemma ImportWallet_unmarshal_failure_witness :
  ImportWallet Sample.env (Sample.data_of "not json") (Sample.data_of "secret")
  = ([CallDecrypt (Sample.data_of "not json") (Sample.data_of "secret")],
     Returned (None, Some (ExternalError Sample.SyntaxError))).
Proof.
  exact (@ImportWallet_unmarshal_failure _ _ _ _ Sample.env
           (Sample.data_of "not json") (Sample.data_of "secret")
           (Sample.data_of "not json") zero_walletExt
           (ExternalError Sample.SyntaxError) eq_refl eq_refl).
Defined.

Lemma CreateWallet_without_type_is_ND_witness :
  CreateWallet Sample.env "alice"
    (map (@option_of _ _)
         [SetStore Sample.BackupStore; SetEncryptor Sample.Unencrypted])
  = ([CallNdCreateWallet "alice" Sample.BackupStore Sample.Unencrypted],
     Returned (nd_CreateWallet Sample.env "alice" Sample.BackupStore
                               Sample.Unencrypted)).
Proof.
  apply (@CreateWallet_without_type_is_ND _ _ _ _ Sample.env "alice"
           [SetStore Sample.BackupStore; SetEncryptor Sample.Unencrypted]).
  intros y [<-|[<-|[]]]; discriminate.
Defined.

Lemma CreateWallet_last_type_decides_witness :
  selected (CreateWallet Sample.env "bob"
              (map (@option_of _ _)
                   ([SetType "nd"] ++ SetType "hd"
                      :: [SetPassphrase (Sample.data_of "pass")])))
  = Some HD.
Proof.
  apply (@CreateWallet_last_type_decides _ _ _ _ Sample.env "bob"
           [SetType "nd"] [SetPassphrase (Sample.data_of "pass")] "hd").
  intros y [<-|[]]. discriminate.
Defined.

Lemma CreateWallet_passphrase_only_matters_for_HD_witness :
  CreateWallet Sample.env "alice"
    (map (@option_of _ _)
         ([SetStore Sample.BackupStore]
            ++ SetPassphrase (Sample.data_of "pass") :: [SetType "nd"]))
  = CreateWallet Sample.env "alice"
      (map (@option_of _ _) ([SetStore Sample.BackupStore] ++ [SetType "nd"])).
Proof.
  apply (@CreateWallet_passphrase_only_matters_for_HD _ _ _ _ Sample.env
           "alice" [SetStore Sample.BackupStore] [SetType "nd"]
           (Sample.data_of "pass")).
  discriminate.
Defined.

Lemma CreateWallet_HD_without_passphrase_witness :
  CreateWallet Sample.env "bob" (map (@option_of _ _) [SetType "hd"])
  = ([CallHdCreateWallet "bob" [] Sample.MainStore Sample.Keystore],
     Returned (None, Some (ExternalError Sample.PassphraseRequired))).
Proof.
  apply (@CreateWallet_HD_without_passphrase _ _ _ _ Sample.env "bob"
           [SetType "hd"]).
  - intros y [<-|[]]. discriminate.
  - reflexivity.
Defined.

Lemma options_on_different_fields_commute_witness :
  apply (WithStore Sample.BackupStore)
        (apply (WithType "hd") (CreateWallet_options Sample.env []))
  = apply (WithType "hd")
          (apply (WithStore Sample.BackupStore)
                 (CreateWallet_options Sample.env [])).
Proof.
  apply (@options_on_different_fields_commute _ _
           (SetStore Sample.BackupStore) (SetType "hd")).
  discriminate.
Defined.

Lemma option_overwrites_same_field_witness :
  apply (WithType "hd")
        (apply (WithType "non-deterministic") (CreateWallet_options Sample.env []))
  = apply (WithType "hd") (CreateWallet_options Sample.env []).
Proof.
  apply (@option_overwrites_same_field _ _
           (SetType "hd") (SetType "non-deterministic")).
  reflexivity.
Defined.

Lemma Wallets_closed_is_final_witness :
  prod (run Sample.env (repeat Producer 20 ++ repeat Consumer 1)
            (Wallets Sample.env)) = Finished /\
  closed (run Sample.env (repeat Producer 20 ++ repeat Consumer 1)
              (Wallets Sample.env)) = true /\
  received (run Sample.env (repeat Producer 20 ++ repeat Consumer 1)
                (Wallets Sample.env))
    ++ buffer (run Sample.env (repeat Producer 20 ++ repeat Consumer 1)
                   (Wallets Sample.env))
  = received (run Sample.env (repeat Producer 20) (Wallets Sample.env))
    ++ buffer (run Sample.env (repeat Producer 20) (Wallets Sample.env)).
Proof.
  apply (@Wallets_closed_is_final _ _ _ _ Sample.env
           (repeat Producer 20) (repeat Consumer 1)).
  reflexivity.
Defined.
